(** * Agent loop, action parser and quasi-agent: a shallow embedding

    The development follows the Python sources
      - [ai_agent_using_prompt_engineering.py]  (module [AgentPE]),
      - [quasi_agent.py]                        (module [Quasi]),
      - [core/game.py]                          (module [Game]),
    on top of a small model of the Python values they manipulate
    (module [Py]) and of the standard [json] codec (module [Json]).

    Python strings are sequences of Unicode code points; they are
    modelled as lists of code points ([N]), lone surrogates included. *)

From Stdlib Require Import List String Ascii ZArith NArith Bool Arith Lia.
From Stdlib Require Import DecimalString.
Import ListNotations.

Set Implicit Arguments.
Set Warnings "-register-all,-abstract-large-number".

(* ================================================================== *)
(** * Python strings, values and exceptions *)
(* ================================================================== *)

Module Py.

Local Open Scope N_scope.

Definition char := N.
Definition str := list char.

(** [u "text"] is the Python string with the given ASCII text. *)
Definition u (s : string) : str :=
  map N_of_ascii (list_ascii_of_string s).

(** [q "text"] is [u "text"] with every apostrophe turned into a double
    quote: a way to write down texts that contain double quotes. *)
Definition q (s : string) : str :=
  map (fun c => if c =? 39 then 34 else c) (u s).

Arguments u : simpl never.
Arguments q : simpl never.

Definition str_eqb (a b : str) : bool :=
  if list_eq_dec N.eq_dec a b then true else false.

(** [s.startswith(prefix)] *)
Fixpoint startswith (pre s : str) : bool :=
  match pre, s with
  | [], _ => true
  | _ :: _, [] => false
  | p :: pre', c :: s' => N.eqb p c && startswith pre' s'
  end.

(** [needle in hay] on two strings: substring search. *)
Fixpoint contains (needle hay : str) : bool :=
  startswith needle hay ||
  match hay with
  | [] => false
  | _ :: hay' => contains needle hay'
  end.

(** [str.isspace] on one code point: the interpreter's whitespace table. *)
Definition isspace (c : char) : bool :=
  ((9 <=? c) && (c <=? 13)) || ((28 <=? c) && (c <=? 32)) ||
  (c =? 133) || (c =? 160) || (c =? 5760) ||
  ((8192 <=? c) && (c <=? 8202)) || (c =? 8232) || (c =? 8233) ||
  (c =? 8239) || (c =? 8287) || (c =? 12288).

Fixpoint lstrip (s : str) : str :=
  match s with
  | [] => []
  | c :: s' => if isspace c then lstrip s' else s
  end.

Definition rstrip (s : str) : str := rev (lstrip (rev s)).

(** [s.strip()] with no argument. *)
Definition strip (s : str) : str := rstrip (lstrip s).

(** [s.split(sep)] for a non-empty separator: the text is scanned from the
    left, every occurrence of [sep] closes the current piece and the scan
    resumes after it.  [skip] counts the characters of a separator that
    are still to be passed over, [cur] holds the current piece reversed. *)
Fixpoint split_from (sep : str) (skip : nat) (cur : str) (s : str) : list str :=
  match s with
  | [] => [rev cur]
  | c :: s' =>
      match skip with
      | S k => split_from sep k cur s'
      | O =>
          if startswith sep s
          then rev cur :: split_from sep (pred (List.length sep)) [] s'
          else split_from sep O (c :: cur) s'
      end
  end.

Definition split (sep s : str) : list str := split_from sep O [] s.

(** [s.replace(old, new)] for one-character [old] and [new]. *)
Definition replace (old new : char) (s : str) : str :=
  map (fun c => if N.eqb c old then new else c) s.

Definition is_ascii (c : char) : bool := c <? 128.
Definition is_upper_ascii (c : char) : bool := (65 <=? c) && (c <=? 90).
Definition is_lower_ascii (c : char) : bool := (97 <=? c) && (c <=? 122).
Definition is_digit_ascii (c : char) : bool := (48 <=? c) && (c <=? 57).

(** Text of a decimal integer, as [int.__repr__] prints it. *)
Definition int_repr (z : Z) : str :=
  u (NilZero.string_of_int (Z.to_int z)).

(** ** Values

    The values the programs handle are those [json.loads] builds, plus
    the dictionaries and lists the tools assemble from them.  A float is
    kept as the literal it was read from: its binary value plays no role
    in the control flow, only its printed form does, and that form is
    left to the interpreter (see [float_repr] below).  Dictionaries keep
    insertion order and have string keys. *)

Inductive value : Type :=
| VNone
| VBool (b : bool)
| VInt (z : Z)
| VFloat (literal : str)
| VStr (s : str)
| VList (items : list value)
| VDict (items : list (str * value)).

Definition dict := list (str * value).

(** [d.get(key)]: [None] at the Rocq level when the key is absent. *)
Fixpoint dict_get (key : str) (d : dict) : option value :=
  match d with
  | [] => None
  | (k, v) :: d' => if str_eqb key k then Some v else dict_get key d'
  end.

(** [key in d] *)
Definition dict_mem (key : str) (d : dict) : bool :=
  match dict_get key d with Some _ => true | None => false end.

(** [d[key] = v]: an existing key keeps its place and takes the new value,
    a new key goes last. *)
Fixpoint dict_set (key : str) (v : value) (d : dict) : dict :=
  match d with
  | [] => [(key, v)]
  | (k, w) :: d' =>
      if str_eqb key k then (k, v) :: d' else (k, w) :: dict_set key v d'
  end.

(** ** Exceptions

    The classes that the programs and the library code they call raise
    or catch by name, any other class derived from [Exception]
    ([OtherError]), and the classes that derive from [BaseException]
    only: the three of the interpreter and any other
    ([OtherBaseException]).  An [except Exception] clause does not catch
    the latter.  The text of an exception that the interpreter raises is
    indicative only; its class is the one the interpreter gives. *)

Inductive exn_class : Type :=
| Exception
| JSONDecodeError
| RecursionError
| TypeError
| KeyError
| AttributeError
| OSError
| FileNotFoundError
| OtherError (name : string)
| SystemExit
| KeyboardInterrupt
| GeneratorExit
| OtherBaseException (name : string).

Definition exn_class_eqb (a b : exn_class) : bool :=
  match a, b with
  | Exception, Exception | JSONDecodeError, JSONDecodeError
  | RecursionError, RecursionError | TypeError, TypeError
  | KeyError, KeyError | AttributeError, AttributeError
  | OSError, OSError | FileNotFoundError, FileNotFoundError
  | SystemExit, SystemExit | KeyboardInterrupt, KeyboardInterrupt
  | GeneratorExit, GeneratorExit => true
  | OtherError x, OtherError y => String.eqb x y
  | OtherBaseException x, OtherBaseException y => String.eqb x y
  | _, _ => false
  end.

(** [issubclass(c, parent)] on the classes above. *)
Definition subclass (c parent : exn_class) : bool :=
  match parent with
  | Exception =>
      match c with
      | SystemExit | KeyboardInterrupt | GeneratorExit
      | OtherBaseException _ => false
      | _ => true
      end
  | OSError => match c with OSError | FileNotFoundError => true | _ => false end
  | _ => exn_class_eqb c parent
  end.

(** An exception: its class and the text [str(e)] gives. *)
Record exn : Type := Exn { exn_class_of : exn_class; exn_str : str }.

Inductive result (A : Type) : Type :=
| Returns (a : A)
| Raises (e : exn).
Arguments Raises {A} e.

Definition bind {A B} (m : result A) (k : A -> result B) : result B :=
  match m with
  | Returns a => k a
  | Raises e => Raises e
  end.

Definition raise {A} (c : exn_class) (msg : string) : result A :=
  Raises (Exn c (u msg)).

(** [try: m] followed by [except c as e: handler(e)] clauses: the first
    clause whose class the exception belongs to handles it; an exception
    that no clause matches goes on. *)
Definition try_except {A} (m : result A)
    (clauses : list (exn_class * (exn -> result A))) : result A :=
  match m with
  | Returns a => Returns a
  | Raises e =>
      match find (fun clause => subclass (exn_class_of e) (fst clause)) clauses with
      | Some clause => snd clause e
      | None => Raises e
      end
  end.

(** ** The host

    What the programs take from the interpreter and the operating system
    and do not compute themselves.  The working directory is taken to be
    readable and writable (listing it and writing a file into it
    succeed) and not to change while the agent runs: the agent's own
    tools only read. *)

(** What the interpreter makes of a float literal: a finite number with
    its shortest printed form, or one of the three special values. *)
Inductive float_text : Type :=
| Finite (repr : str)
| NotANumber
| PlusInfinity
| MinusInfinity.

Record Host : Type := {
  (** [float(literal)], as far as its printed form goes *)
  float_of_literal : str -> float_text;
  (** [repr(s)] of a string: quotes and escapes *)
  repr_of_str : str -> str;
  (** [str.lower] on a text that has a non-ASCII character *)
  lower_unicode : str -> str;
  (** [str.isalnum] on a non-ASCII character *)
  isalnum_unicode : char -> bool;
  (** [os.listdir(".")] *)
  listdir : list str;
  (** [open(file_name, "r")] followed by [read()] *)
  open_read : value -> result str;
  (** [time.strftime("%Y-%m-%dT%H:%M:%S%Z")] *)
  strftime : str;
  (** [traceback.format_exc()] while the exception is handled *)
  format_exc : exn -> str;
  (** opening and reading a file fail with errors derived from
      [Exception] only ([OSError], [TypeError], [ValueError],
      [UnicodeDecodeError]): an interrupt from the keyboard while the
      file is read is outside the model *)
  open_read_raises :
    forall file_name e,
      open_read file_name = Raises e ->
      subclass (exn_class_of e) Exception = true
}.

Section Formatting.

Variable host : Host.

Definition float_repr (literal : str) : str :=
  match float_of_literal host literal with
  | Finite r => r
  | NotANumber => u "nan"
  | PlusInfinity => u "inf"
  | MinusInfinity => u "-inf"
  end.

(** [sep.join(pieces)] *)
Fixpoint join (sep : str) (pieces : list str) : str :=
  match pieces with
  | [] => []
  | [p] => p
  | p :: ps => p ++ sep ++ join sep ps
  end.

(** [repr(v)] *)
Fixpoint py_repr (v : value) : str :=
  match v with
  | VNone => u "None"
  | VBool true => u "True"
  | VBool false => u "False"
  | VInt z => int_repr z
  | VFloat literal => float_repr literal
  | VStr s => repr_of_str host s
  | VList items => u "[" ++ join (u ", ") (map py_repr items) ++ u "]"
  | VDict items =>
      u "{" ++
      join (u ", ")
        (map (fun kv : str * value =>
                let (k, w) := kv in repr_of_str host k ++ u ": " ++ py_repr w)
           items) ++
      u "}"
  end.

(** [str(v)], which is also what an f-string field prints. *)
Definition py_str (v : value) : str :=
  match v with
  | VStr s => s
  | _ => py_repr v
  end.

End Formatting.

End Py.

Declare Scope py_scope.
Delimit Scope py_scope with py.
Notation "x <- m ;; k" := (Py.bind m (fun x => k))
  (at level 61, m at next level, right associativity) : py_scope.

(* ================================================================== *)
(** * The [json] codec of the standard library *)
(* ================================================================== *)

(** [json.loads] and [json.dumps] are library code; they are modelled
    after the default (accelerated) scanner and encoder.  The scanner
    works on the text that is still to be read instead of on an index
    into it.  The texts of decoding errors are indicative only: the
    programs never look at them. *)

Module Json.
Import Py.
Local Open Scope N_scope.

Inductive scan (A : Type) : Type :=
| Scanned (a : A) (rest : str)
| Invalid (msg : string)
| TooDeep.
Arguments Invalid {A} msg.
Arguments TooDeep {A}.

Definition is_ws (c : char) : bool :=
  (c =? 32) || (c =? 9) || (c =? 10) || (c =? 13).

Fixpoint skip_ws (s : str) : str :=
  match s with
  | [] => []
  | c :: s' => if is_ws c then skip_ws s' else s
  end.

(** A scan makes progress on [s] when it does not run out of fuel and,
    if it succeeds, leaves less text than [s]. *)
Definition progresses {A} (m : scan A) (s : str) : Prop :=
  m <> TooDeep /\
  forall a r, m = Scanned a r -> (List.length r < List.length s)%nat.

Definition hex_digit (c : char) : option N :=
  if (48 <=? c) && (c <=? 57) then Some (c - 48)
  else if (97 <=? c) && (c <=? 102) then Some (c - 87)
  else if (65 <=? c) && (c <=? 70) then Some (c - 55)
  else None.

Definition hex4 (a b c d : char) : option N :=
  match hex_digit a, hex_digit b, hex_digit c, hex_digit d with
  | Some x, Some y, Some z, Some w => Some (((x * 16 + y) * 16 + z) * 16 + w)
  | _, _, _, _ => None
  end.

(** The one-letter escapes of a JSON string. *)
Definition backslash (c : char) : option char :=
  if c =? 34 then Some 34
  else if c =? 92 then Some 92
  else if c =? 47 then Some 47
  else if c =? 98 then Some 8
  else if c =? 102 then Some 12
  else if c =? 110 then Some 10
  else if c =? 114 then Some 13
  else if c =? 116 then Some 9
  else None.

Definition is_high_surrogate (c : N) : bool := (55296 <=? c) && (c <=? 56319).
Definition is_low_surrogate (c : N) : bool := (56320 <=? c) && (c <=? 57343).
Definition join_surrogates (hi lo : N) : N :=
  65536 + ((hi - 55296) * 1024 + (lo - 56320)).

(** [scanstring]: the text after the opening quote, in strict mode.
    [acc] holds the decoded characters, last one first. *)
Fixpoint scanstring (s : str) (acc : str) : scan str :=
  match s with
  | [] => Invalid "Unterminated string starting at"
  | c :: s1 =>
      if c =? 34 then Scanned (rev acc) s1
      else if c =? 92 then
        match s1 with
        | [] => Invalid "Unterminated string starting at"
        | e :: s2 =>
            if e =? 117 then
              match s2 with
              | h1 :: h2 :: h3 :: h4 :: s3 =>
                  match hex4 h1 h2 h3 h4 with
                  | None => Invalid "Invalid \uXXXX escape"
                  | Some uni =>
                      if is_high_surrogate uni then
                        match s3 with
                        | b :: x :: l1 :: l2 :: l3 :: l4 :: s4 =>
                            if (b =? 92) && (x =? 117) then
                              match hex4 l1 l2 l3 l4 with
                              | None => Invalid "Invalid \uXXXX escape"
                              | Some uni2 =>
                                  if is_low_surrogate uni2
                                  then scanstring s4 (join_surrogates uni uni2 :: acc)
                                  else scanstring s3 (uni :: acc)
                              end
                            else scanstring s3 (uni :: acc)
                        | _ => scanstring s3 (uni :: acc)
                        end
                      else scanstring s3 (uni :: acc)
                  end
              | _ => Invalid "Invalid \uXXXX escape"
              end
            else
              match backslash e with
              | Some ch => scanstring s2 (ch :: acc)
              | None => Invalid "Invalid \escape"
              end
        end
      else if c <=? 31 then Invalid "Invalid control character at"
      else scanstring s1 (c :: acc)
  end.

Fixpoint span_digits (s : str) : str * str :=
  match s with
  | [] => ([], [])
  | c :: s' =>
      if is_digit_ascii c
      then let (ds, r) := span_digits s' in (c :: ds, r)
      else ([], s)
  end.

Definition int_of_digits (ds : str) : Z :=
  Z.of_N (fold_left (fun acc d => acc * 10 + (d - 48)) ds 0).

(** The parts of a number, each given with the text left after it: an
    optional minus sign, an integer part without leading zero, an
    optional fraction (a dot and at least one digit), an optional exponent
    (the letter, an optional sign, at least one digit). *)
Definition take_sign (s : str) : str * str :=
  match s with
  | c :: s' => if c =? 45 then ([c], s') else ([], s)
  | [] => ([], [])
  end.

Definition take_int (s : str) : option (str * str) :=
  match s with
  | [] => None
  | c :: s' =>
      if (49 <=? c) && (c <=? 57)
      then let (ds, r) := span_digits s' in Some (c :: ds, r)
      else if c =? 48 then Some ([c], s')
      else None
  end.

Definition take_frac (s : str) : str * str :=
  match s with
  | dot :: d :: s' =>
      if (dot =? 46) && is_digit_ascii d
      then let (ds, r) := span_digits s' in (dot :: d :: ds, r)
      else ([], s)
  | _ => ([], s)
  end.

Definition take_exp (s : str) : str * str :=
  match s with
  | e :: s' =>
      if (e =? 101) || (e =? 69) then
        let (sg, s'') := 
          match s' with
          | g :: t => if (g =? 43) || (g =? 45) then ([g], t) else ([], s')
          | [] => ([], s')
          end in
        let (ds, r) := span_digits s'' in
        match ds with
        | [] => ([], s)
        | _ :: _ => (e :: sg ++ ds, r)
        end
      else ([], s)
  | [] => ([], s)
  end.

(** [_match_number]: without fraction and exponent the number is an
    [int], otherwise a [float]. *)
Definition match_number (s : str) : scan value :=
  let (sign, s1) := take_sign s in
  match take_int s1 with
  | None => Invalid "Expecting value"
  | Some (ids, r) =>
      let (frac, r1) := take_frac r in
      let (expo, r2) := take_exp r1 in
      match frac, expo with
      | [], [] =>
          let n := int_of_digits ids in
          Scanned (VInt (match sign with [] => n | _ => Z.opp n end)) r2
      | _, _ => Scanned (VFloat (sign ++ ids ++ frac ++ expo)) r2
      end
  end.

(** The named constants. *)
Definition constants : list (string * value) :=
  [ ("null", VNone); ("true", VBool true); ("false", VBool false);
    ("NaN", VFloat (u "NaN")); ("Infinity", VFloat (u "Infinity"));
    ("-Infinity", VFloat (u "-Infinity")) ]%string.

Fixpoint match_constant (cs : list (string * value)) (s : str) : option (value * str) :=
  match cs with
  | [] => None
  | (name, v) :: cs' =>
      if startswith (u name) s
      then Some (v, skipn (String.length name) s)
      else match_constant cs' s
  end.

(** [scan_once] with the loops of [_parse_array] and [_parse_object].
    Every call uses one unit of [fuel]; [loads] provides enough of it for
    the whole text (lemma [scan_once_fuel] below). *)
Fixpoint scan_once (fuel : nat) (s : str) {struct fuel} : scan value :=
  match fuel with
  | O => TooDeep
  | S f =>
      match s with
      | [] => Invalid "Expecting value"
      | c :: s' =>
          if c =? 34 then
            match scanstring s' [] with
            | Scanned t r => Scanned (VStr t) r
            | Invalid m => Invalid m
            | TooDeep => TooDeep
            end
          else if c =? 123 then
            match skip_ws s' with
            | c1 :: r1 =>
                if c1 =? 125 then Scanned (VDict []) r1
                else parse_object f (c1 :: r1) []
            | [] => parse_object f [] []
            end
          else if c =? 91 then
            match skip_ws s' with
            | c1 :: r1 =>
                if c1 =? 93 then Scanned (VList []) r1
                else parse_array f (c1 :: r1) []
            | [] => parse_array f [] []
            end
          else
            match match_constant constants s with
            | Some (v, r) => Scanned v r
            | None => match_number s
            end
      end
  end

(** One turn of the array loop: a value, then [']'] or [','].  [acc]
    holds the values read so far, last one first. *)
with parse_array (fuel : nat) (s : str) (acc : list value) {struct fuel} : scan value :=
  match fuel with
  | O => TooDeep
  | S f =>
      match scan_once f s with
      | Scanned v r =>
          match skip_ws r with
          | c :: r1 =>
              if c =? 93 then Scanned (VList (rev (v :: acc))) r1
              else if c =? 44 then parse_array f (skip_ws r1) (v :: acc)
              else Invalid "Expecting ',' delimiter"
          | [] => Invalid "Expecting ',' delimiter"
          end
      | Invalid m => Invalid m
      | TooDeep => TooDeep
      end
  end

(** One turn of the object loop: a quoted key, [':'], a value, then ['}']
    or [','].  The pairs are stored into the dictionary as they come, so
    a repeated key keeps its first place and its last value. *)
with parse_object (fuel : nat) (s : str) (acc : dict) {struct fuel} : scan value :=
  match fuel with
  | O => TooDeep
  | S f =>
      match s with
      | [] => Invalid "Expecting property name enclosed in double quotes"
      | q :: s1 =>
          if q =? 34 then
            match scanstring s1 [] with
            | Scanned key r =>
                match skip_ws r with
                | [] => Invalid "Expecting ':' delimiter"
                | c :: r1 =>
                    if c =? 58 then
                      match scan_once f (skip_ws r1) with
                      | Scanned v r2 =>
                          let acc' := dict_set key v acc in
                          match skip_ws r2 with
                          | [] => Invalid "Expecting ',' delimiter"
                          | c2 :: r3 =>
                              if c2 =? 125 then Scanned (VDict acc') r3
                              else if c2 =? 44 then parse_object f (skip_ws r3) acc'
                              else Invalid "Expecting ',' delimiter"
                          end
                      | Invalid m => Invalid m
                      | TooDeep => TooDeep
                      end
                    else Invalid "Expecting ':' delimiter"
                end
            | Invalid m => Invalid m
            | TooDeep => TooDeep
            end
          else Invalid "Expecting property name enclosed in double quotes"
      end
  end.

(** [json.loads(s)] for a [str] argument: no byte-order mark, one value
    between optional whitespace, nothing after it.  A text the scanner
    rejects raises [JSONDecodeError].  The interpreter's own limits (its
    recursion limit on very deep nesting, its limit on the number of
    digits of an integer) are not modelled. *)
Definition loads (s : str) : result value :=
  if startswith [65279] s
  then raise JSONDecodeError "Unexpected UTF-8 BOM (decode using utf-8-sig)"
  else
    match scan_once (S (2 * List.length s)) (skip_ws s) with
    | Scanned v r =>
        match skip_ws r with
        | [] => Returns v
        | _ :: _ => raise JSONDecodeError "Extra data"
        end
    | Invalid m => raise JSONDecodeError m
    | TooDeep => raise RecursionError "maximum recursion depth exceeded"
    end.

(** ** Encoding *)

Definition hex_char (n : N) : char :=
  if n <? 10 then 48 + n else 87 + n.

(** [\uXXXX], four lower-case hexadecimal digits. *)
Definition u_escape (n : N) : str :=
  [92; 117; hex_char (n / 4096 mod 16); hex_char (n / 256 mod 16);
   hex_char (n / 16 mod 16); hex_char (n mod 16)].

(** One character of a string under [ensure_ascii=True]. *)
Definition escape_char (c : char) : str :=
  if c =? 34 then [92; 34]
  else if c =? 92 then [92; 92]
  else if c =? 10 then [92; 110]
  else if c =? 13 then [92; 114]
  else if c =? 9 then [92; 116]
  else if c =? 12 then [92; 102]
  else if c =? 8 then [92; 98]
  else if (32 <=? c) && (c <=? 126) then [c]
  else if c <? 65536 then u_escape c
  else
    let n := c - 65536 in
    u_escape (55296 + (n / 1024) mod 1024) ++ u_escape (56320 + n mod 1024).

Definition encode_string (s : str) : str :=
  [34] ++ flat_map escape_char s ++ [34].

Section Encoder.

Variable host : Host.

Definition floatstr (literal : str) : str :=
  match float_of_literal host literal with
  | Finite r => r
  | NotANumber => u "NaN"
  | PlusInfinity => u "Infinity"
  | MinusInfinity => u "-Infinity"
  end.

(** [json.dumps(v)] with the default separators. *)
Fixpoint dumps (v : value) : str :=
  match v with
  | VNone => u "null"
  | VBool true => u "true"
  | VBool false => u "false"
  | VInt z => int_repr z
  | VFloat literal => floatstr literal
  | VStr s => encode_string s
  | VList items => u "[" ++ join (u ", ") (map dumps items) ++ u "]"
  | VDict items =>
      u "{" ++
      join (u ", ")
        (map (fun kv : str * value => let (k, w) := kv in encode_string k ++ u ": " ++ dumps w)
           items) ++
      u "}"
  end.

End Encoder.

End Json.


(* ================================================================== *)
(** * [ai_agent_using_prompt_engineering.py] *)
(* ================================================================== *)

Module AgentPE.
Import Py.
Local Open Scope py_scope.

Definition fence : str := u "```".

(** [range(1, n, 2)] *)
Definition odd_indices (n : nat) : list nat :=
  map (fun k => 1 + 2 * k) (seq 0 (n / 2)).

(** The [for] loop of [extract_markdown_block] over the indices that are
    left: the first block that starts with the tag is returned. *)
Fixpoint first_block (block_type : str) (parts : list str) (indices : list nat)
  : option str :=
  match indices with
  | [] => None
  | i :: indices' =>
      let block := strip (nth i parts []) in
      if startswith block_type block
      then Some (strip (skipn (List.length block_type) block))
      else first_block block_type parts indices'
  end.

Definition extract_markdown_block (response block_type : str) : str :=
  if negb (contains fence response) then response
  else
    let parts := split fence response in
    match first_block block_type parts (odd_indices (List.length parts)) with
    | Some block => block
    | None => strip response
    end.

(** [key in x] for a string [key]: a key of a dictionary, a piece of a
    string, an element of a list; other values do not support [in]. *)
Definition py_in (key : str) (x : value) : result bool :=
  match x with
  | VDict d => Returns (dict_mem key d)
  | VStr s => Returns (contains key s)
  | VList items =>
      Returns (existsb (fun v => match v with VStr t => str_eqb key t | _ => false end)
                 items)
  | _ => raise TypeError "argument is not iterable"
  end.

Definition error_action (message : string) : value :=
  VDict [(u "tool_name", VStr (u "error"));
         (u "args", VDict [(u "message", VStr (u message))])].

Definition parse_action (response : str) : result value :=
  try_except
    (let response := extract_markdown_block response (u "action") in
     response_json <- Json.loads response ;;
     has_name <- py_in (u "tool_name") response_json ;;
     has_args <- (if has_name then py_in (u "args") response_json else Returns false) ;;
     if has_name && has_args
     then Returns response_json
     else Returns (error_action "Missing required fields in action JSON."))
    [(JSONDecodeError,
      fun _ => Returns (error_action "Malformed JSON in action block."))].

(** A message of the conversation: [{"role": ..., "content": ...}]. *)
Record message : Type := Message { role : str; content : str }.

(** What the agent prints, line by line, and what it asks the model. *)
Inductive line : Type :=
| IterationLine (number : nat)
| ThinkingLine
| ResponseLine (response : str)
| TerminationLine (summary : value)
| ActionResultLine (tool_result : dict)
| MaxIterationsLine.

Inductive event : Type :=
| Print (l : line)
| Generate (prompt : list message).

(** [args[key]] *)
Definition subscript (args : value) (key : string) : result value :=
  match args with
  | VDict d =>
      match dict_get (u key) d with
      | Some v => Returns v
      | None => Raises (Exn KeyError (u "'" ++ u key ++ u "'"))
      end
  | VStr _ => raise TypeError "string indices must be integers, not 'str'"
  | VList _ => raise TypeError "list indices must be integers or slices, not str"
  | _ => raise TypeError "object is not subscriptable"
  end.

(** [action.get(key, default)] *)
Definition get (action : value) (key : string) (default : value) : result value :=
  match action with
  | VDict d =>
      Returns (match dict_get (u key) d with Some v => v | None => default end)
  | _ => raise AttributeError "object has no attribute 'get'"
  end.

Definition tool : Type := value -> result dict.

(** [tool_map.get(tool_name, default)]: the key has to be hashable; only
    a string can be equal to one of the keys. *)
Definition tool_map_get (m : list (str * tool)) (tool_name : value) (default : tool)
  : result tool :=
  match tool_name with
  | VList _ => raise TypeError "unhashable type: 'list'"
  | VDict _ => raise TypeError "unhashable type: 'dict'"
  | VStr name =>
      Returns (match find (fun entry => str_eqb name (fst entry)) m with
               | Some entry => snd entry
               | None => default
               end)
  | _ => Returns default
  end.

Section Agent.

Variable host : Host.

(** The model's answers, one per call of [generate_response], in order. *)
Variable replies : nat -> str.

(** ** ToolExecutor *)

Definition list_files : list str := listdir host.

Definition read_file (file_name : value) : result str :=
  try_except (open_read host file_name)
    [(FileNotFoundError,
      fun _ => Returns (u "Error: File '" ++ py_str host file_name ++ u "' not found."));
     (Exception,
      fun e => Returns (u "Error: " ++ exn_str e))].

(** ** Agent *)

Definition tool_map : list (str * tool) :=
  [ (u "list_files",
      fun _ => Returns [(u "result", VList (map VStr list_files))]);
    (u "read_file",
      fun args =>
        file_name <- subscript args "file_name" ;;
        text <- read_file file_name ;;
        Returns [(u "result", VStr text)]);
    (u "terminate",
      fun args => m <- subscript args "message" ;; Returns [(u "terminate", m)]);
    (u "error",
      fun args => m <- subscript args "message" ;; Returns [(u "error", m)]) ].

Definition _load_rules : list message :=
  [ {| role := u "system";
       content := q "
                        You are an AI agent that can perform tasks by using available tools.
                        
                        Available tools:
                        ```json
                        {
                            'list_files': {
                                'description': 'Lists all files in the current directory.',
                                'parameters': {}
                            },
                            'read_file': {
                                'description': 'Reads the content of a file.',
                                'parameters': {
                                    'file_name': {
                                        'type': 'string',
                                        'description': 'The name of the file to read.'
                                    }
                                }
                            },
                            'terminate': {
                                'description': 'Ends the agent loop and provides a summary of the task.',
                                'parameters': {
                                    'message': {
                                        'type': 'string',
                                        'description': 'Summary message to return to the user.'
                                    }
                                }
                            }
                        }
                        ```
                        If a user asks about files, documents, or content, first list the files before reading them.
                        When you are done, terminate the conversation by using the 'terminate' tool and I will provide the results to the user.
                        
                        Important!!! Every response MUST have an action.
                        You must ALWAYS respond in this format:
                        
                        <Stop and think step by step. Parameters map to args. Insert a rich description of your step by step thoughts here.>
                        
                        ```action
                        {
                            'tool_name': 'insert tool_name',
                            'args': {...fill in any required arguments here...}
                        }
                        ```
                        " |} ].

Definition agent_rules : list message := _load_rules.

Definition unknown_action (tool_name : value) : tool :=
  fun _ => Returns [(u "error", VStr (u "Unknown action: " ++ py_str host tool_name))].

(** The body of the loop from [parse_action] to the tool's result. *)
Definition dispatch (response : str) : result dict :=
  action <- parse_action response ;;
  tool_name <- get action "tool_name" VNone ;;
  args <- get action "args" (VDict []) ;;
  tool_fn <- tool_map_get tool_map tool_name (unknown_action tool_name) ;;
  tool_fn args.

(** What a call of [run] leaves behind: how it ended, [self.memory], and
    the prints and model calls in the order they happened. *)
Record run_result : Type := RunResult {
  ended : result unit;
  memory : list message;
  events : list event
}.

Definition after (es : list event) (r : run_result) : run_result :=
  {| ended := ended r; memory := memory r; events := es ++ events r |}.

Definition terminate_value (tool_result : dict) : value :=
  match dict_get (u "terminate") tool_result with
  | Some v => v
  | None => VNone
  end.

(** The [for i in range(self.max_iterations)] loop with its [else]
    branch, [remaining] iterations before the cap, [i] the current index,
    [mem] the current [self.memory].  The console is taken to accept
    every line that is printed: [print] itself does not raise here, as
    it would on a text with a lone surrogate. *)
Fixpoint loop (remaining : nat) (i : nat) (mem : list message) : run_result :=
  match remaining with
  | O => RunResult (Returns tt) mem [Print MaxIterationsLine]
  | S remaining' =>
      let prompt := agent_rules ++ mem in
      let response := replies i in
      after [Print (IterationLine (i + 1)); Print ThinkingLine;
             Generate prompt; Print (ResponseLine response)]
        match dispatch response with
        | Raises e => RunResult (Raises e) mem []
        | Returns tool_result =>
            if dict_mem (u "terminate") tool_result
            then RunResult (Returns tt) mem
                   [Print (TerminationLine (terminate_value tool_result))]
            else
              after [Print (ActionResultLine tool_result)]
                (loop remaining' (S i)
                   (mem ++ [Message (u "assistant") response;
                            Message (u "user") (Json.dumps host (VDict tool_result))]))
        end
  end.

Definition run (max_iterations : nat) (user_task : str) : run_result :=
  loop max_iterations 0 [Message (u "user") user_task].

End Agent.

End AgentPE.

(* ================================================================== *)
(** * [quasi_agent.py] *)
(* ================================================================== *)

Module Quasi.
Import Py.
Local Open Scope py_scope.

Definition message : Type := AgentPE.message.
Definition Message := AgentPE.Message.

(** What the script does to the outside, in order. *)
Inductive event : Type :=
| Input (prompt : str)
| Print (text : str)
| Generate (messages : list message)
| WriteFile (filename : str) (text : str).

(** A program that reads answers from the model and leaves events:
    [calls] answers have been read so far. *)
Record log : Type := Log { calls : nat; events : list event }.

Definition io (A : Type) : Type := log -> result A * log.

Definition ret {A} (a : A) : io A := fun l => (Returns a, l).

Definition iobind {A B} (m : io A) (k : A -> io B) : io B :=
  fun l =>
    match m l with
    | (Returns a, l') => k a l'
    | (Raises e, l') => (Raises e, l')
    end.

Definition lift {A} (m : result A) : io A := fun l => (m, l).

Definition emit (e : event) : io unit :=
  fun l => (Returns tt, Log (calls l) (events l ++ [e])).

Notation "x <~ m ;; k" := (iobind m (fun x => k))
  (at level 61, m at next level, right associativity).
Notation "m ;;; k" := (iobind m (fun _ => k))
  (at level 61, right associativity).

Definition newline : str := [10%N].

Section QuasiAgent.

Variable host : Host.

(** The model's answers, one per call of [generate_response], in order. *)
Variable replies : nat -> str.

(** The line the user types at the prompt. *)
Variable typed : str.

(** [self.llm_client.generate_response(messages)] *)
Definition generate_response (messages : list message) : io str :=
  fun l =>
    (Returns (replies (calls l)),
     Log (S (calls l)) (events l ++ [Generate messages])).

(** [parts[i]] on a list *)
Definition item (parts : list str) (i : nat) : result str :=
  match nth_error parts i with
  | Some p => Returns p
  | None => raise (OtherError "IndexError") "list index out of range"
  end.

Definition _extract_code_block (response : str) : result str :=
  if negb (contains AgentPE.fence response) then Returns response
  else
    part <- item (split AgentPE.fence response) 1 ;;
    let code_block := strip part in
    Returns (if startswith (u "python") code_block
             then skipn 6 code_block
             else code_block).

(** [messages.append({"role": role, "content": content})] *)
Definition _add_message (messages : list message) (role content : str)
  : list message :=
  messages ++ [Message role content].

Definition lower_ascii (c : char) : char :=
  if is_upper_ascii c then (c + 32)%N else c.

(** [s.lower()] *)
Definition lower (s : str) : str :=
  if forallb is_ascii s then map lower_ascii s else lower_unicode host s.

(** [c.isalnum()] *)
Definition isalnum (c : char) : bool :=
  if is_ascii c
  then is_upper_ascii c || is_lower_ascii c || is_digit_ascii c
  else isalnum_unicode host c.

Definition _build_filename (description : str) : str :=
  let filename :=
    filter (fun c => isalnum c || isspace c) (lower description) in
  firstn 30 (replace 32%N 95%N filename) ++ u ".py".

Definition _interactive_input : io str :=
  emit (Print (newline ++ u "What kind of function would you like to create?")) ;;;
  emit (Print (u "Example: 'A function that calculates the factorial of a number'")) ;;;
  emit (Input (u "Your description: ")) ;;;
  ret (strip typed).

Definition fenced (code : str) : str :=
  u "```python" ++ newline ++ code ++ newline ++ u "```".

Definition prompt_generate (function_description : str) : str :=
  u "Write a Python function that " ++ function_description ++ u ". " ++
  u "Output the function in a ```python code block```.".

Definition prompt_document : str :=
  u "Add a comprehensive documentation to this function, including " ++
  u "description, parameters, return value, examples, and edge cases. " ++
  u "Output the function in a ```python code block```.".

Definition prompt_test : str :=
  u "Add unittest test cases for this function, including tests for basic " ++
  u "functionality, edge cases, error cases and various input scenarios. " ++
  u "Output the code in a ```python code block```.".

Definition system_message : message :=
  Message (u "system") (u "You are a Python expert helping to develop a function").

Definition develop_custom_function : io (str * str * str) :=
  function_description <~ _interactive_input ;;
  let messages := [system_message] in
  (* Step 1 - Generate base function *)
  let messages := _add_message messages (u "user") (prompt_generate function_description) in
  response <~ generate_response messages ;;
  base_function <~ lift (_extract_code_block response) ;;
  emit (Print (newline ++ u "=== Initial Function ===")) ;;;
  emit (Print base_function) ;;;
  let messages := _add_message messages (u "assistant") (fenced base_function) in
  (* Step 2 - Add documentation *)
  let messages := _add_message messages (u "user") prompt_document in
  response <~ generate_response messages ;;
  documented_function <~ lift (_extract_code_block response) ;;
  emit (Print (newline ++ u "=== Documented Function ===")) ;;;
  emit (Print documented_function) ;;;
  let messages := _add_message messages (u "assistant") (fenced documented_function) in
  (* Step 3 - Generate test cases *)
  let messages := _add_message messages (u "user") prompt_test in
  response <~ generate_response messages ;;
  test_cases <~ lift (_extract_code_block response) ;;
  emit (Print (newline ++ u "=== Test Cases ===")) ;;;
  emit (Print test_cases) ;;;
  (* Save to file *)
  let filename := _build_filename function_description in
  emit (WriteFile filename (documented_function ++ newline ++ newline ++ test_cases)) ;;;
  emit (Print (newline ++ [9989%N] ++ u " Code and tests written to: " ++ filename)) ;;;
  ret (documented_function, test_cases, filename).

End QuasiAgent.

End Quasi.

(* ================================================================== *)
(** * [core/game.py] *)
(* ================================================================== *)

Module Game.
Import Py.
Local Open Scope py_scope.

(** An action: [function] stands for the call [self.function( **args )],
    which returns a value or raises. *)
Record Action : Type := {
  name : str;
  function : dict -> result value;
  description : str;
  parameters : dict;
  terminal : bool
}.

(** [execute(self, **args)]: the caller's dictionary is spread into
    keywords, so a key [self] collides with the receiver and the call
    raises before the function is reached. *)
Definition execute (action : Action) (args : dict) : result value :=
  if dict_mem (u "self") args
  then raise TypeError "Action.execute() got multiple values for argument 'self'"
  else function action args.

(** ** ActionRegistry

    [self.actions] is a dictionary from names to actions; it keeps the
    order in which the names came in. *)

(** [d[key] = a] and [d.get(key, None)] on such a dictionary. *)
Fixpoint set_item {A} (key : str) (a : A) (d : list (str * A)) : list (str * A) :=
  match d with
  | [] => [(key, a)]
  | (k, b) :: d' =>
      if str_eqb key k then (k, a) :: d' else (k, b) :: set_item key a d'
  end.

Fixpoint get_item {A} (key : str) (d : list (str * A)) : option A :=
  match d with
  | [] => None
  | (k, b) :: d' => if str_eqb key k then Some b else get_item key d'
  end.

Record ActionRegistry : Type := { actions : list (str * Action) }.

(** [ActionRegistry()] *)
Definition new_registry : ActionRegistry := {| actions := [] |}.

Definition register (registry : ActionRegistry) (action : Action) : ActionRegistry :=
  {| actions := set_item (name action) action (actions registry) |}.

Definition get_action (registry : ActionRegistry) (name : str) : option Action :=
  get_item name (actions registry).

Definition get_actions (registry : ActionRegistry) : list Action :=
  map snd (actions registry).

(** ** Memory *)

Record Memory : Type := { items : list dict }.

(** [Memory()] *)
Definition new_memory : Memory := {| items := [] |}.

Definition add_memory (m : Memory) (memory : dict) : Memory :=
  {| items := items m ++ [memory] |}.

(** The slice [l[:stop]]: everything when [stop] is [None], the first
    [stop] elements when it is not negative, and all but the last
    [-stop] elements when it is negative. *)
Definition slice_to {A} (l : list A) (stop : option Z) : list A :=
  match stop with
  | None => l
  | Some n =>
      if (0 <=? n)%Z
      then firstn (Z.to_nat n) l
      else firstn (Z.to_nat (Z.of_nat (List.length l) + n)) l
  end.

Definition get_memories (m : Memory) (limit : option Z) : list dict :=
  slice_to (items m) limit.

(** ** Environment *)

Section Environment.

Variable host : Host.

Definition format_result (result : value) : dict :=
  [ (u "tool_executed", VBool true);
    (u "result", result);
    (u "timestamp", VStr (strftime host)) ].

Definition execute_action (action : Action) (args : dict) : result dict :=
  try_except
    (result <- execute action args ;;
     Returns (format_result result))
    [(Exception,
      fun e =>
        Returns [ (u "tool_executed", VBool false);
                  (u "error", VStr (exn_str e));
                  (u "traceback", VStr (format_exc host e)) ])].

End Environment.

End Game.

(* ================================================================== *)
(** * [app.py] *)
(* ================================================================== *)

Module App.
Import Py.

Definition message : Type := AgentPE.message.
Definition Message := AgentPE.Message.

Record ChatSession : Type := { messages : list message }.

(** The model client as a session sees it: how many answers it has
    given, and the message lists it has received, in order. *)
Record client : Type := Client { calls : nat; received : list (list message) }.

Section Chat.

(** The model's answers, one per call of [generate_response], in order. *)
Variable replies : nat -> str.

(** [self.llm_client.generate_response(messages)] *)
Definition generate_response (messages : list message) (c : client) : str * client :=
  (replies (calls c), Client (S (calls c)) (received c ++ [messages])).

(** [ChatSession(system_prompt, llm_client)] *)
Definition new_session (system_prompt : str) : ChatSession :=
  {| messages := [Message (u "system") system_prompt] |}.

Definition ask (session : ChatSession) (user_message : str) (c : client)
  : str * ChatSession * client :=
  let messages1 := messages session ++ [Message (u "user") user_message] in
  let (response, c') := generate_response messages1 c in
  (response, {| messages := messages1 ++ [Message (u "assistant") response] |}, c').

End Chat.

End App.

(* ================================================================== *)
(** * A host for the examples *)
(* ================================================================== *)

(** A working directory that holds the one file [notes.txt].  Floats are
    printed as they were written and strings are quoted without escapes,
    which is exact for the plain literals that the examples use. *)
Definition sample_open_read (file_name : Py.value) : Py.result Py.str :=
  match file_name with
  | Py.VStr s =>
      if Py.str_eqb s (Py.u "notes.txt")
      then Py.Returns (Py.u "remember the milk")
      else Py.Raises (Py.Exn Py.FileNotFoundError
                        (Py.u "[Errno 2] No such file or directory"))
  | _ => Py.raise Py.TypeError "expected str, bytes or os.PathLike object"
  end.

Definition sample_open_read_raises (file_name : Py.value) (e : Py.exn)
    (H : sample_open_read file_name = Py.Raises e)
  : Py.subclass (Py.exn_class_of e) Py.Exception = true.
Proof.
  destruct file_name as [| | | |s| |]; cbn in H;
    try (injection H as <-; reflexivity).
  destruct (Py.str_eqb s (Py.u "notes.txt")); [discriminate|].
  injection H as <-; reflexivity.
Qed.

Definition sample_host : Py.Host := {|
  Py.float_of_literal := fun literal => Py.Finite literal;
  Py.repr_of_str := fun s => (Py.u "'" ++ s ++ Py.u "'")%list;
  Py.lower_unicode := fun s => s;
  Py.isalnum_unicode := fun _ => false;
  Py.listdir := [Py.u "notes.txt"];
  Py.open_read := sample_open_read;
  Py.strftime := Py.u "2024-01-01T00:00:00UTC";
  Py.format_exc := fun e => (Py.u "Traceback (most recent call last): " ++ Py.exn_str e)%list;
  Py.open_read_raises := sample_open_read_raises
|}.

(* ================================================================== *)
(** * Vocabulary of the specification *)
(* ================================================================== *)

Unset Implicit Arguments.

Module AgentSpec.
Import Py AgentPE.
Local Open Scope py_scope.

(** The piece [i] of a text cut at the fences is a block that starts
    with the tag.  Pieces are numbered from 0; the fenced blocks are the
    pieces with an odd number. *)
Definition tagged (block_type : str) (parts : list str) (i : nat) : bool :=
  startswith block_type (strip (nth i parts [])).

(** A value that [in] does not accept on its right. *)
Definition scalar (v : value) : bool :=
  match v with
  | VNone | VBool _ | VInt _ | VFloat _ => true
  | _ => false
  end.

Definition hashable (v : value) : bool :=
  match v with
  | VList _ | VDict _ => false
  | _ => true
  end.

Definition tool_names : list str :=
  [u "list_files"; u "read_file"; u "terminate"; u "error"].

(** The longest front part of a list whose elements all pass the test. *)
Fixpoint take_while {A} (test : A -> bool) (l : list A) : list A :=
  match l with
  | [] => []
  | a :: l' => if test a then a :: take_while test l' else []
  end.

(** The prompts of the model calls among the events, in order. *)
Fixpoint prompts (es : list event) : list (list message) :=
  match es with
  | [] => []
  | Generate p :: es' => p :: prompts es'
  | Print _ :: es' => prompts es'
  end.

Section Run.

Variable host : Host.
Variable replies : nat -> str.

(** What [read_file] answers, by the outcome of opening and reading. *)
Definition read_file_text (file_name : value) : str :=
  match open_read host file_name with
  | Returns text => text
  | Raises e =>
      if subclass (exn_class_of e) FileNotFoundError
      then u "Error: File '" ++ py_str host file_name ++ u "' not found."
      else u "Error: " ++ exn_str e
  end.

(** [self.tool_map.get(name, default)(args)] *)
Definition call_tool (name : str) (args : value) : result dict :=
  tool_fn <- tool_map_get (tool_map host) (VStr name)
               (unknown_action host (VStr name)) ;;
  tool_fn args.

(** The answer of the default handler. *)
Definition unknown_result (tool_name : value) : dict :=
  [(u "error", VStr (u "Unknown action: " ++ py_str host tool_name))].

(** The tool result of iteration [j], when the iteration gets that far. *)
Definition tool_result (j : nat) : dict :=
  match dispatch host (replies j) with
  | Returns d => d
  | Raises _ => []
  end.

(** Iteration [j] produces a tool result with the termination signal. *)
Definition terminal (j : nat) : bool :=
  match dispatch host (replies j) with
  | Returns d => dict_mem (u "terminate") d
  | Raises _ => false
  end.

(** Iteration [j] produces a tool result without the termination signal. *)
Definition nonterminal (j : nat) : bool :=
  match dispatch host (replies j) with
  | Returns d => negb (dict_mem (u "terminate") d)
  | Raises _ => false
  end.

(** The number of non-terminal iterations a run with the given cap
    completes: the iterations before the first one that terminates or
    raises. *)
Definition completed (max_iterations : nat) : nat :=
  List.length (take_while nonterminal (seq 0 max_iterations)).

(** The two entries that iteration [j] appends to the memory. *)
Definition entries (j : nat) : list message :=
  [ Message (u "assistant") (replies j);
    Message (u "user") (Json.dumps host (VDict (tool_result j))) ].

(** The memory after [k] non-terminal iterations. *)
Definition memory_after (user_task : str) (k : nat) : list message :=
  Message (u "user") user_task :: flat_map entries (seq 0 k).

(** The number of iterations a run has started: each one calls the model
    once. *)
Definition iterations (r : run_result) : nat :=
  List.length (prompts (events r)).

Definition printed (l : line) (r : run_result) : Prop :=
  In (Print l) (events r).

(** The run stops at the first terminal iteration, if there is one among
    the first [max_iterations], and at the cap otherwise; it reports the
    one or the other. *)
Definition halts_as_specified (max_iterations : nat) (user_task : str) : Prop :=
  let r := run host replies max_iterations user_task in
  match find terminal (seq 0 max_iterations) with
  | Some j =>
      iterations r = S j /\
      (exists summary, printed (TerminationLine summary) r) /\
      ~ printed MaxIterationsLine r
  | None =>
      iterations r = max_iterations /\
      printed MaxIterationsLine r /\
      (forall summary, ~ printed (TerminationLine summary) r)
  end.

End Run.

(** ** Model replies for the examples *)

(** A model that lists the files and then terminates. *)
Definition two_steps (i : nat) : str :=
  match i with
  | O => q "Let me look. ```action {'tool_name': 'list_files', 'args': {}} ```"
  | _ => q "```action {'tool_name': 'terminate', 'args': {'message': 'One file.'}} ```"
  end.

(** A model that asks for a file without naming it. *)
Definition nameless_read (i : nat) : str :=
  q "```action {'tool_name': 'read_file', 'args': {}} ```".

(** A model that asks for a tool that does not exist. *)
Definition dance (i : nat) : str :=
  q "```action {'tool_name': 'dance', 'args': {}} ```".

(** A model that gives a list where the tool name goes. *)
Definition list_named (i : nat) : str :=
  q "```action {'tool_name': [], 'args': {}} ```".

End AgentSpec.

Module QuasiSpec.
Import Py Quasi.

(** The code block of a reply: the reply itself when it has no fence,
    else the text between the first fence and the next one, trimmed and
    without a leading [python]. *)
Definition code_block (response : str) : str :=
  if contains AgentPE.fence response then
    let block := strip (nth 1 (split AgentPE.fence response) []) in
    if startswith (u "python") block then skipn 6 block else block
  else response.

(** The message lists sent to the model, in order. *)
Fixpoint generated (es : list event) : list (list message) :=
  match es with
  | [] => []
  | Generate messages :: es' => messages :: generated es'
  | _ :: es' => generated es'
  end.

(** The files written, in order. *)
Fixpoint written (es : list event) : list (str * str) :=
  match es with
  | [] => []
  | WriteFile filename text :: es' => (filename, text) :: written es'
  | _ :: es' => written es'
  end.

(** A lower-case letter, a digit or an underscore. *)
Definition stem_char (c : char) : bool :=
  is_lower_ascii c || is_digit_ascii c || N.eqb c 95.

End QuasiSpec.

Module TextSpec.
Import Py.

(** A text without a backtick. *)
Definition no_backtick (s : str) : bool :=
  forallb (fun c => negb (N.eqb c 96)) s.

(** A tag: not empty, without whitespace. *)
Definition solid (tag : str) : bool :=
  negb (str_eqb tag []) && forallb (fun c => negb (isspace c)) tag.

(** [a] is a front part of [b]. *)
Definition prefix_of {A} (a b : list A) : Prop := exists tail, b = a ++ tail.

End TextSpec.

Module RunSpec.
Import Py AgentPE.

(** The numbers of the iteration lines among the events, in order. *)
Fixpoint iteration_numbers (es : list event) : list nat :=
  match es with
  | [] => []
  | Print (IterationLine n) :: es' => n :: iteration_numbers es'
  | _ :: es' => iteration_numbers es'
  end.

(** A code point of the surrogate range, which UTF-8 does not encode. *)
Definition is_surrogate (c : char) : bool :=
  (55296 <=? c)%N && (c <=? 57343)%N.

(** A value that a UTF-8 console prints when it is put into an f-string:
    a string must have no surrogate; the text of any other value is its
    [repr], which has them escaped. *)
Definition printable (v : value) : bool :=
  match v with
  | VStr s => forallb (fun c => negb (is_surrogate c)) s
  | _ => true
  end.

End RunSpec.

Module GameSpec.
Import Py Game.

(** The registry after registering the actions of a list, first to
    last, in a new registry. *)
Definition registered (l : list Action) : ActionRegistry :=
  fold_left register l new_registry.

(** The registries that [register] builds keep each action under its
    own name, and each name once. *)
Definition well_keyed (d : list (str * Action)) : Prop :=
  NoDup (map fst d) /\ Forall (fun entry => fst entry = name (snd entry)) d.

(** The memory after adding the entries of a list, first to last, to a
    new memory. *)
Definition remembered (l : list dict) : Memory :=
  fold_left add_memory l new_memory.

(** An action whose function is [lambda: sys.exit(0)]. *)
Definition quitting : Action := {|
  name := u "quit";
  function := fun _ => Raises (Exn SystemExit (u "0"));
  description := u "Leaves the program.";
  parameters := [];
  terminal := true
|}.

End GameSpec.

Module ChatSpec.
Import Py App.

Section Chat.

Variable replies : nat -> str.

(** A conversation: the user's messages are asked one after the other;
    the answers come back in the same order. *)
Fixpoint ask_all (session : ChatSession) (user_messages : list str) (c : client)
  : list str * ChatSession * client :=
  match user_messages with
  | [] => ([], session, c)
  | user_message :: rest =>
      let '(response, session', c') := ask replies session user_message c in
      let '(responses, session'', c'') := ask_all session' rest c' in
      (response :: responses, session'', c'')
  end.

(** The two messages that the exchange number [i] adds: the user's
    message and the answer to the call number [i]. *)
Definition exchange (entry : nat * str) : list message :=
  [ Message (u "user") (snd entry); Message (u "assistant") (replies (fst entry)) ].

(** The transcript of a session that started with [first] calls already
    made to the client. *)
Definition transcript (system_prompt : str) (first : nat) (user_messages : list str)
  : list message :=
  Message (u "system") system_prompt
  :: flat_map exchange (combine (seq first (List.length user_messages)) user_messages).

End Chat.

End ChatSpec.

(* ================================================================== *)
(** * Strings *)
(* ================================================================== *)

Module StrFacts.
Import Py.

Lemma str_eqb_eq (a b : str) : str_eqb a b = true <-> a = b.
Proof.
  unfold str_eqb. destruct (list_eq_dec N.eq_dec a b); split; congruence.
Qed.

Lemma str_eqb_neq (a b : str) : a <> b -> str_eqb a b = false.
Proof.
  intros H. destruct (str_eqb a b) eqn:E; [|reflexivity].
  now apply str_eqb_eq in E.
Qed.

Lemma contains_cons (sep : str) (c : char) (s : str) :
  contains sep (c :: s) = startswith sep (c :: s) || contains sep s.
Proof. reflexivity. Qed.

Lemma startswith_length (pre s : str) :
  startswith pre s = true -> List.length pre <= List.length s.
Proof.
  revert s. induction pre as [|p pre IH]; intros [|c s] H;
    cbn [startswith List.length] in *; try lia; try discriminate.
  apply andb_true_iff in H as [_ H]. specialize (IH _ H). lia.
Qed.

(** A text without the separator is its own single piece. *)
Lemma split_from_absent (sep : str) :
  forall (s cur : str),
    contains sep s = false -> split_from sep 0 cur s = [(rev cur ++ s)%list].
Proof.
  induction s as [|c s IH]; intros cur H.
  - simpl. now rewrite app_nil_r.
  - rewrite contains_cons in H. apply orb_false_iff in H as [Hp Hc].
    cbn [split_from]. rewrite Hp. rewrite (IH (c :: cur) Hc).
    simpl. now rewrite <- app_assoc.
Qed.

Lemma split_absent (sep s : str) :
  contains sep s = false -> split sep s = [s].
Proof. intros H. unfold split. now rewrite split_from_absent. Qed.

Lemma split_from_not_nil (sep : str) :
  forall (s : str) (skip : nat) (cur : str), split_from sep skip cur s <> [].
Proof.
  induction s as [|c s IH]; intros skip cur; cbn [split_from].
  - discriminate.
  - destruct skip; [destruct (startswith sep (c :: s))|];
      try discriminate; apply IH.
Qed.

(** A text with the (non-empty) separator has two pieces at least. *)
Lemma split_from_present (sep : str) :
  sep <> [] ->
  forall (s cur : str),
    contains sep s = true ->
    exists a b rest, split_from sep 0 cur s = a :: b :: rest.
Proof.
  intros Hsep. induction s as [|c s IH]; intros cur H.
  - destruct sep; [congruence | discriminate].
  - rewrite contains_cons in H. cbn [split_from].
    destruct (startswith sep (c :: s)) eqn:Hp.
    + destruct (split_from sep (pred (List.length sep)) [] s) as [|b rest] eqn:E.
      * now apply split_from_not_nil in E.
      * now exists (rev cur), b, rest.
    + simpl in H. now apply IH.
Qed.

End StrFacts.

(* ================================================================== *)
(** * The decoder always answers *)
(* ================================================================== *)

Module JsonFacts.
Import Py Json StrFacts.

Lemma skip_ws_length (s : str) : List.length (skip_ws s) <= List.length s.
Proof.
  induction s as [|c s IH]; cbn [skip_ws]; [apply Nat.le_refl|].
  destruct (is_ws c); cbn [List.length]; lia.
Qed.

Lemma span_digits_length (s : str) :
  List.length (snd (span_digits s)) <= List.length s.
Proof.
  induction s as [|c s IH]; cbn [span_digits]; [apply Nat.le_refl|].
  destruct (is_digit_ascii c); [|apply Nat.le_refl].
  destruct (span_digits s) as [ds r]. cbn [snd List.length] in *. lia.
Qed.

Lemma match_constant_shrinks (cs : list (string * value)) :
  Forall (fun entry => fst entry <> EmptyString) cs ->
  forall (s : str) (v : value) (r : str),
    match_constant cs s = Some (v, r) -> List.length r < List.length s.
Proof.
  induction 1 as [|[name w] cs Hname _ IH]; intros s v r; cbn [match_constant].
  - discriminate.
  - destruct (startswith (u name) s) eqn:E; [|apply IH].
    intros H. assert (Hr : r = skipn (String.length name) s) by congruence.
    subst r. rewrite length_skipn.
    destruct name as [|a name]; [now contradiction Hname|].
    destruct s as [|c s]; [discriminate E|]. cbn [String.length List.length]. lia.
Qed.

Lemma constants_named :
  Forall (fun entry : string * value => fst entry <> EmptyString) constants.
Proof. repeat constructor; discriminate. Qed.

Lemma progresses_invalid {A} (msg : string) (s : str) :
  progresses (@Invalid A msg) s.
Proof. split; intros; discriminate. Qed.

Lemma progresses_scanned {A} (a : A) (r s : str) :
  List.length r < List.length s -> progresses (Scanned a r) s.
Proof. intros H. split; [discriminate|]. now intros ? ? [= <- <-]. Qed.

Lemma progresses_longer {A} (m : scan A) (s s' : str) :
  List.length s <= List.length s' -> progresses m s -> progresses m s'.
Proof.
  intros L [H1 H2]. split; [assumption|].
  intros a r E. specialize (H2 a r E). lia.
Qed.

(** A string scan consumes the closing quote at least. *)
Lemma scanstring_progresses :
  forall (n : nat) (s acc : str),
    List.length s <= n -> progresses (scanstring s acc) s.
Proof.
  induction n as [|n IH]; intros s acc Hn.
  - destruct s; [apply progresses_invalid|cbn in Hn; lia].
  - destruct s as [|c s1]; [apply progresses_invalid|]. cbn [List.length] in Hn.
    cbn [scanstring].
    repeat match goal with
           | |- progresses (Scanned _ _) _ =>
               apply progresses_scanned; cbn [List.length]; lia
           | |- progresses (Invalid _) _ => apply progresses_invalid
           | |- progresses (scanstring ?x ?a) _ =>
               apply (@progresses_longer _ _ x);
               [cbn [List.length]; lia|apply IH; cbn [List.length] in *; lia]
           | |- context [if ?b then _ else _] => destruct b
           | |- context [match ?x with _ => _ end] => destruct x
           end.
Qed.

Lemma take_sign_length (s : str) :
  List.length (snd (take_sign s)) <= List.length s.
Proof.
  destruct s as [|c s]; cbn [take_sign]; [apply Nat.le_refl|].
  destruct (N.eqb c 45); cbn [snd List.length]; lia.
Qed.

Lemma take_int_shrinks (s ids r : str) :
  take_int s = Some (ids, r) -> List.length r < List.length s.
Proof.
  destruct s as [|c s]; cbn [take_int]; [discriminate|].
  pose proof (span_digits_length s) as L.
  destruct (span_digits s) as [ds r'].
  destruct (_ && _); [|destruct (N.eqb c 48)];
    intros [= <- <-] || discriminate; cbn [snd List.length] in *; lia.
Qed.

Lemma take_frac_length (s : str) :
  List.length (snd (take_frac s)) <= List.length s.
Proof.
  destruct s as [|dot [|d s]]; cbn [take_frac]; try apply Nat.le_refl.
  pose proof (span_digits_length s) as L.
  destruct (span_digits s) as [ds r].
  destruct (_ && _); cbn [snd List.length] in *; lia.
Qed.

Lemma take_exp_length (s : str) :
  List.length (snd (take_exp s)) <= List.length s.
Proof.
  destruct s as [|e s]; cbn [take_exp]; [apply Nat.le_refl|].
  destruct (_ || _); [|apply Nat.le_refl].
  destruct s as [|g t].
  - cbn. lia.
  - pose proof (span_digits_length t) as Lt.
    pose proof (span_digits_length (g :: t)) as Lg.
    destruct (_ || _).
    + destruct (span_digits t) as [[|x ds] r]; cbn [snd List.length] in *; lia.
    + destruct (span_digits (g :: t)) as [[|x ds] r]; cbn [snd List.length] in *; lia.
Qed.

Lemma match_number_progresses (s : str) : progresses (match_number s) s.
Proof.
  unfold match_number.
  pose proof (take_sign_length s) as L1.
  destruct (take_sign s) as [sign s1]. cbn [snd] in L1.
  destruct (take_int s1) as [[ids r]|] eqn:E; [|apply progresses_invalid].
  apply take_int_shrinks in E.
  pose proof (take_frac_length r) as L2.
  destruct (take_frac r) as [frac r1]. cbn [snd] in L2.
  pose proof (take_exp_length r1) as L3.
  destruct (take_exp r1) as [expo r2]. cbn [snd] in L3.
  destruct frac, expo; apply progresses_scanned; lia.
Qed.

(** With fuel above twice the length of the text the scanner does not
    run out of it, and what it scans is not empty. *)
Lemma scan_once_fuel (fuel : nat) :
  (forall s, 2 * List.length s < fuel -> progresses (scan_once fuel s) s) /\
  (forall s acc, 2 * List.length s + 1 < fuel ->
                 progresses (parse_array fuel s acc) s) /\
  (forall s acc, 2 * List.length s + 1 < fuel ->
                 progresses (parse_object fuel s acc) s).
Proof.
  induction fuel as [|f (IHv & IHa & IHo)]; [repeat split; intros; lia|].
  split; [|split].
  - intros [|c s] Hf; cbn [scan_once]; [apply progresses_invalid|].
    cbn [List.length] in Hf.
    destruct (N.eqb c 34).
    { destruct (scanstring_progresses _ s [] (Nat.le_refl _)) as [Hs1 Hs2].
      destruct (scanstring s []) as [t r| |]; [|apply progresses_invalid|congruence].
      apply progresses_scanned. specialize (Hs2 t r eq_refl). cbn [List.length]. lia. }
    pose proof (skip_ws_length s) as Lw.
    destruct (N.eqb c 123).
    { destruct (skip_ws s) as [|c1 r1].
      - apply (@progresses_longer _ _ []); [cbn [List.length]; lia|].
        apply IHo. cbn [List.length]. lia.
      - cbn [List.length] in Lw. destruct (N.eqb c1 125).
        + apply progresses_scanned. cbn [List.length]. lia.
        + apply (@progresses_longer _ _ (c1 :: r1)); [cbn [List.length]; lia|].
          apply IHo. cbn [List.length]. lia. }
    destruct (N.eqb c 91).
    { destruct (skip_ws s) as [|c1 r1].
      - apply (@progresses_longer _ _ []); [cbn [List.length]; lia|].
        apply IHa. cbn [List.length]. lia.
      - cbn [List.length] in Lw. destruct (N.eqb c1 93).
        + apply progresses_scanned. cbn [List.length]. lia.
        + apply (@progresses_longer _ _ (c1 :: r1)); [cbn [List.length]; lia|].
          apply IHa. cbn [List.length]. lia. }
    destruct (match_constant constants (c :: s)) as [[v r]|] eqn:E.
    + apply (match_constant_shrinks _ constants_named) in E.
      now apply progresses_scanned.
    + apply match_number_progresses.
  - intros s acc Hf. cbn [parse_array].
    destruct (IHv s) as [Hv1 Hv2]; [lia|].
    destruct (scan_once f s) as [v r| |]; [|apply progresses_invalid|congruence].
    specialize (Hv2 v r eq_refl). pose proof (skip_ws_length r) as Lw.
    destruct (skip_ws r) as [|c r1]; [apply progresses_invalid|].
    cbn [List.length] in Lw.
    destruct (N.eqb c 93); [apply progresses_scanned; lia|].
    destruct (N.eqb c 44); [|apply progresses_invalid].
    pose proof (skip_ws_length r1) as Lw1.
    apply (@progresses_longer _ _ (skip_ws r1)); [lia|]. apply IHa. lia.
  - intros [|k s1] acc Hf; cbn [parse_object]; [apply progresses_invalid|].
    cbn [List.length] in Hf.
    destruct (N.eqb k 34); [|apply progresses_invalid].
    destruct (scanstring_progresses _ s1 [] (Nat.le_refl _)) as [Hs1 Hs2].
    destruct (scanstring s1 []) as [key r| |]; [|apply progresses_invalid|congruence].
    specialize (Hs2 key r eq_refl). pose proof (skip_ws_length r) as Lw.
    destruct (skip_ws r) as [|c r1]; [apply progresses_invalid|].
    cbn [List.length] in Lw.
    destruct (N.eqb c 58); [|apply progresses_invalid].
    pose proof (skip_ws_length r1) as Lw1.
    destruct (IHv (skip_ws r1)) as [Hv1 Hv2]; [lia|].
    destruct (scan_once f (skip_ws r1)) as [v r2| |];
      [|apply progresses_invalid|congruence].
    specialize (Hv2 v r2 eq_refl). pose proof (skip_ws_length r2) as Lw2.
    destruct (skip_ws r2) as [|c2 r3]; [apply progresses_invalid|].
    cbn [List.length] in Lw2.
    destruct (N.eqb c2 125); [apply progresses_scanned; cbn [List.length]; lia|].
    destruct (N.eqb c2 44); [|apply progresses_invalid].
    pose proof (skip_ws_length r3) as Lw3.
    apply (@progresses_longer _ _ (skip_ws r3)); [cbn [List.length]; lia|].
    apply IHo. lia.
Qed.

(** [loads] gives the scanner all the fuel it needs: the decoder as it
    is modelled here, without the interpreter's limits, returns a value
    or raises [JSONDecodeError]. *)
Lemma loads_raises_decode_error (s : str) (e : exn) :
  loads s = Raises e -> exn_class_of e = JSONDecodeError.
Proof.
  unfold loads. destruct (startswith [65279%N] s); [now intros [= <-]|].
  pose proof (skip_ws_length s) as Lw.
  destruct (scan_once_fuel (S (2 * List.length s))) as [Hv _].
  destruct (Hv (skip_ws s)) as [H1 _]; [lia|].
  destruct (scan_once _ (skip_ws s)) as [v r|msg|]; [| |congruence].
  - destruct (skip_ws r); [discriminate|now intros [= <-]].
  - now intros [= <-].
Qed.

End JsonFacts.

(* ================================================================== *)
(** * The action parser *)
(* ================================================================== *)

Module ExtractFacts.
Import Py AgentPE AgentSpec StrFacts.

Lemma in_odd_indices (n i : nat) :
  In i (odd_indices n) <-> Nat.odd i = true /\ i < n.
Proof.
  unfold odd_indices. rewrite in_map_iff. split.
  - intros (k & <- & Hk). apply in_seq in Hk.
    pose proof (Nat.div_mod_eq n 2). split.
    + rewrite Nat.odd_spec. exists k. lia.
    + lia.
  - intros [Ho Hi]. apply Nat.odd_spec in Ho as [k ->].
    exists k. split; [lia|]. apply in_seq.
    pose proof (Nat.div_mod_eq n 2).
    pose proof (Nat.mod_upper_bound n 2). lia.
Qed.

(** The odd indices come in increasing order. *)
Lemma odd_indices_split (n i : nat) :
  Nat.odd i = true -> i < n ->
  exists pre post,
    odd_indices n = pre ++ i :: post /\
    forall j, In j pre -> Nat.odd j = true /\ j < i.
Proof.
  intros Ho Hi. apply Nat.odd_spec in Ho as [k ->].
  pose proof (Nat.div_mod_eq n 2) as Hd.
  pose proof (Nat.mod_upper_bound n 2) as Hm.
  assert (Hk : n / 2 = k + S (n / 2 - S k)) by lia.
  unfold odd_indices. rewrite Hk, seq_app, map_app. cbn [seq map].
  eexists _, _. split.
  - f_equal. f_equal. lia.
  - intros j Hj. apply in_map_iff in Hj as (m & <- & Hin).
    apply in_seq in Hin. split; [|lia].
    rewrite Nat.odd_spec. exists m. lia.
Qed.

Lemma first_block_found (block_type : str) (parts : list str) (i : nat) :
  forall pre post,
    (forall j, In j pre -> tagged block_type parts j = false) ->
    tagged block_type parts i = true ->
    first_block block_type parts (pre ++ i :: post)
    = Some (strip (skipn (List.length block_type) (strip (nth i parts [])))).
Proof.
  induction pre as [|j pre IH]; intros post Hpre Hi; cbn [app first_block].
  - unfold tagged in Hi. now rewrite Hi.
  - assert (Hj : tagged block_type parts j = false) by (apply Hpre; now left).
    unfold tagged in Hj. rewrite Hj. apply IH; [|assumption].
    intros k Hk. apply Hpre. now right.
Qed.

Lemma first_block_none (block_type : str) (parts : list str) :
  forall indices,
    (forall j, In j indices -> tagged block_type parts j = false) ->
    first_block block_type parts indices = None.
Proof.
  induction indices as [|j indices IH]; intros H; cbn [first_block]; [reflexivity|].
  assert (Hj : tagged block_type parts j = false) by (apply H; now left).
  unfold tagged in Hj. rewrite Hj. apply IH. intros k Hk. apply H. now right.
Qed.

(** C4, as far as it holds.  With the tag [action],
    [extract_markdown_block] returns the body of the first fenced block
    that starts with the tag, without the tag and trimmed.  When no
    fenced block starts with the tag it returns the whole text: as it is
    when the text has no fence at all, and trimmed of its surrounding
    whitespace when it has one. *)
Theorem extract_markdown_block_action (response : str) :
  let parts := split fence response in
  (forall i,
      Nat.odd i = true -> i < List.length parts ->
      tagged (u "action") parts i = true ->
      (forall j, Nat.odd j = true -> j < i -> tagged (u "action") parts j = false) ->
      extract_markdown_block response (u "action")
      = strip (skipn 6 (strip (nth i parts []))))
  /\
  ((forall i, Nat.odd i = true -> i < List.length parts ->
              tagged (u "action") parts i = false) ->
   extract_markdown_block response (u "action")
   = if contains fence response then strip response else response).
Proof.
  intros parts. split.
  - intros i Ho Hi Ht Hleast.
    unfold extract_markdown_block.
    destruct (contains fence response) eqn:Hc; cbn [negb].
    + destruct (odd_indices_split _ _ Ho Hi) as (pre & post & Hsplit & Hpre).
      fold parts. rewrite Hsplit.
      rewrite (first_block_found (u "action") parts i); [reflexivity| |assumption].
      intros j Hj. apply Hpre in Hj as [Hjo Hji]. now apply Hleast.
    + exfalso. subst parts. rewrite (split_absent _ _ Hc) in Hi.
      cbn in Hi. assert (i = 0) by lia. subst i. discriminate.
  - intros Hnone. unfold extract_markdown_block.
    destruct (contains fence response) eqn:Hc; cbn [negb]; [|reflexivity].
    fold parts. rewrite first_block_none; [reflexivity|].
    intros j Hj. apply in_odd_indices in Hj as [Hjo Hji]. now apply Hnone.
Qed.

Lemma extract_markdown_block_action_witness :
  extract_markdown_block
    (q "Listing. ```action {'tool_name': 'list_files', 'args': {}} ``` ")
    (u "action")
  = q "{'tool_name': 'list_files', 'args': {}}".
Proof.
  destruct (extract_markdown_block_action
              (q "Listing. ```action {'tool_name': 'list_files', 'args': {}} ``` "))
    as [H _].
  rewrite (H 1%nat).
  - vm_compute. reflexivity.
  - reflexivity.
  - vm_compute. lia.
  - vm_compute. reflexivity.
  - intros j Hj Hlt. assert (j = 0%nat) by lia. subst j. discriminate.
Defined.

(** A text with a fenced block of another tag and a trailing space: no
    block starts with [action], and what comes back is not the text
    itself but the text without the trailing space. *)
Lemma extract_markdown_block_trims :
  (forall i, Nat.odd i = true ->
             i < List.length (split fence (u "```json {}``` ")) ->
             tagged (u "action") (split fence (u "```json {}``` ")) i = false)
  /\ extract_markdown_block (u "```json {}``` ") (u "action") = u "```json {}```"
  /\ extract_markdown_block (u "```json {}``` ") (u "action") <> u "```json {}``` ".
Proof.
  split; [|split].
  - intros i Ho Hi. vm_compute in Hi.
    destruct i as [|[|[|i]]]; try discriminate; try reflexivity; lia.
  - vm_compute. reflexivity.
  - vm_compute. discriminate.
Qed.

End ExtractFacts.

Module ParseFacts.
Import Py AgentPE AgentSpec StrFacts JsonFacts.
Local Open Scope py_scope.

(** What [parse_action] does with a payload that decodes to an object,
    and with one that does not decode. *)
Lemma parse_action_object (response : str) (d : dict) :
  Json.loads (extract_markdown_block response (u "action")) = Returns (VDict d) ->
  parse_action response
  = Returns (if dict_mem (u "tool_name") d && dict_mem (u "args") d
             then VDict d
             else error_action "Missing required fields in action JSON.").
Proof.
  intros H. unfold parse_action. rewrite H. cbn [bind try_except py_in].
  destruct (dict_mem (u "tool_name") d); cbn [bind andb try_except]; [|reflexivity].
  destruct (dict_mem (u "args") d); reflexivity.
Qed.

Lemma parse_action_malformed (response : str) (e : exn) :
  Json.loads (extract_markdown_block response (u "action")) = Raises e ->
  subclass (exn_class_of e) JSONDecodeError = true ->
  parse_action response = Returns (error_action "Malformed JSON in action block.").
Proof.
  intros H C. unfold parse_action. rewrite H. cbn [bind try_except find fst snd].
  now rewrite C.
Qed.

(** The two ways for [parse_action] to raise: the payload decodes to a
    number, a boolean or [null], and the membership test on it raises
    [TypeError]; or the decoder raises something else than
    [JSONDecodeError], which the [except] clause does not catch. *)
Lemma parse_action_raises (response : str) (e : exn) :
  parse_action response = Raises e ->
  (exn_class_of e = TypeError /\
   exists v, Json.loads (extract_markdown_block response (u "action")) = Returns v /\
             scalar v = true)
  \/
  (Json.loads (extract_markdown_block response (u "action")) = Raises e /\
   subclass (exn_class_of e) JSONDecodeError = false).
Proof.
  destruct (Json.loads (extract_markdown_block response (u "action")))
    as [v|e'] eqn:L.
  - unfold parse_action. rewrite L. cbn [bind].
    destruct v as [| | | | s | items | items];
      cbn [py_in raise bind try_except find fst snd subclass exn_class_eqb exn_class_of];
      try (intros [= <-]; left; split; [reflexivity|eexists; split; reflexivity]).
    + destruct (contains (u "tool_name") s); cbn [bind andb try_except];
        [destruct (contains (u "args") s)|]; discriminate.
    + match goal with |- context [existsb ?f items] => destruct (existsb f items) end;
        cbn [bind andb try_except];
        [match goal with |- context [existsb ?f items] => destruct (existsb f items) end|];
        discriminate.
    + destruct (dict_mem (u "tool_name") items); cbn [bind andb try_except];
        [destruct (dict_mem (u "args") items)|]; discriminate.
  - unfold parse_action. rewrite L. cbn [bind try_except find fst snd].
    destruct (subclass (exn_class_of e') JSONDecodeError) eqn:C; [discriminate|].
    intros [= <-]. right. now split.
Qed.

(** An equation between a result of [parse_action] and a dictionary is
    settled by looking at which of the three results it is. *)
Ltac settle_fields :=
  let H := fresh "H" in
  intros H; injection H as H; try discriminate;
  try (subst; split; solve [reflexivity | assumption]).

(** C8. Every dictionary that [parse_action] returns has the key
    ["tool_name"] and the key ["args"]: the decoded object is returned
    only when it has both, and the two error actions are built with
    both. *)
Theorem parse_action_fields (response : str) (d : dict) :
  parse_action response = Returns (VDict d) ->
  dict_mem (u "tool_name") d = true /\ dict_mem (u "args") d = true.
Proof.
  unfold parse_action.
  destruct (Json.loads (extract_markdown_block response (u "action"))) as [v|e];
    cbn [bind try_except find fst snd].
  - destruct v as [| | | | s | items | items];
      cbn [py_in raise bind exn_class_of subclass exn_class_eqb]; try discriminate.
    + destruct (contains (u "tool_name") s); cbn [bind andb];
        [destruct (contains (u "args") s); cbn [bind andb]|]; settle_fields.
    + match goal with |- context [existsb ?f items] => destruct (existsb f items) end;
        cbn [bind andb];
        [match goal with |- context [existsb ?f items] => destruct (existsb f items) end;
         cbn [bind andb]|]; settle_fields.
    + destruct (dict_mem (u "tool_name") items) eqn:Hn; cbn [bind andb];
        [destruct (dict_mem (u "args") items) eqn:Ha; cbn [bind andb]|]; settle_fields.
  - destruct (subclass (exn_class_of e) JSONDecodeError); [|discriminate].
    settle_fields.
Qed.

Lemma parse_action_fields_witness :
  dict_mem (u "tool_name")
    [(u "tool_name", VStr (u "list_files")); (u "args", VDict [])] = true /\
  dict_mem (u "args")
    [(u "tool_name", VStr (u "list_files")); (u "args", VDict [])] = true.
Proof.
  apply (parse_action_fields
           (q "I will look around. ```action {'tool_name': 'list_files', 'args': {}} ```")).
  vm_compute. reflexivity.
Defined.

(** A payload that is a JSON string with both words in it passes the
    membership tests, which on a string look for a piece of text: what
    comes back is the string, not a dictionary. *)
Example parse_action_string_payload :
  parse_action (q "'tool_name and args'") = Returns (VStr (u "tool_name and args")).
Proof. vm_compute. reflexivity. Qed.

(** C1. On the reply [5] the payload is valid JSON, the number 5, and
    [parse_action] does not return: the test ["tool_name" in 5] raises
    [TypeError], which the handler for [JSONDecodeError] lets through. *)
Theorem parse_action_number_raises :
  Json.loads (extract_markdown_block (u "5") (u "action")) = Returns (VInt 5) /\
  parse_action (u "5") = raise TypeError "argument is not iterable".
Proof. split; vm_compute; reflexivity. Qed.

End ParseFacts.

(* ================================================================== *)
(** * The tools *)
(* ================================================================== *)

Module ToolFacts.
Import Py AgentPE AgentSpec StrFacts.
Local Open Scope py_scope.

Section Tools.

Variable host : Host.

Lemma read_file_returns (file_name : value) :
  read_file host file_name = Returns (read_file_text host file_name).
Proof.
  unfold read_file, read_file_text.
  destruct (open_read host file_name) as [text|e] eqn:E;
    cbn [try_except find fst snd]; [reflexivity|].
  destruct (subclass (exn_class_of e) FileNotFoundError); [reflexivity|].
  now rewrite (open_read_raises host _ E).
Qed.

(** C5. [read_file] lets no exception through: it returns the content of
    the file when opening and reading succeed, the not-found message on
    [FileNotFoundError] and the text of the exception on any other one
    (opening and reading raise exceptions derived from [Exception]
    only).  [execute_action] returns a dictionary with ["tool_executed"]
    true and the result when the action's function returns; one with
    ["tool_executed"] false, the text of the exception and the traceback
    when the function raises an exception derived from [Exception]; the
    same with a [TypeError] when the arguments have the key ["self"], in
    which case the function is not called; and it lets through an
    exception of the function that is not derived from [Exception]. *)
Theorem exceptions_handled :
  (forall file_name : value,
      read_file host file_name
      = Returns
          match open_read host file_name with
          | Returns text => text
          | Raises e =>
              if subclass (exn_class_of e) FileNotFoundError
              then u "Error: File '" ++ py_str host file_name ++ u "' not found."
              else u "Error: " ++ exn_str e
          end)
  /\
  (forall (action : Game.Action) (args : dict),
      if dict_mem (u "self") args
      then
        exists e,
          exn_class_of e = TypeError /\
          Game.execute_action host action args
          = Returns [ (u "tool_executed", VBool false);
                      (u "error", VStr (exn_str e));
                      (u "traceback", VStr (format_exc host e)) ]
      else
        match Game.function action args with
        | Returns result =>
            Game.execute_action host action args
            = Returns [ (u "tool_executed", VBool true);
                        (u "result", result);
                        (u "timestamp", VStr (strftime host)) ]
        | Raises e =>
            Game.execute_action host action args
            = if subclass (exn_class_of e) Exception
              then Returns [ (u "tool_executed", VBool false);
                             (u "error", VStr (exn_str e));
                             (u "traceback", VStr (format_exc host e)) ]
              else Raises e
        end).
Proof.
  split.
  - exact read_file_returns.
  - intros action args. unfold Game.execute_action, Game.execute.
    destruct (dict_mem (u "self") args).
    + eexists. split; [|reflexivity]. reflexivity.
    + destruct (Game.function action args) as [result|e]; [reflexivity|].
      cbn [bind try_except find fst snd].
      destruct (subclass (exn_class_of e) Exception); reflexivity.
Qed.

(** The four entries of the tool map, one by one. *)
Lemma call_list_files (args : value) :
  call_tool host (u "list_files") args
  = Returns [(u "result", VList (map VStr (listdir host)))].
Proof. reflexivity. Qed.

Lemma call_read_file (args : value) :
  call_tool host (u "read_file") args
  = (file_name <- subscript args "file_name" ;;
     Returns [(u "result", VStr (read_file_text host file_name))]).
Proof.
  change (call_tool host (u "read_file") args)
    with (file_name <- subscript args "file_name" ;;
          text <- read_file host file_name ;;
          Returns [(u "result", VStr text)]).
  destruct (subscript args "file_name") as [file_name|e]; cbn [bind]; [|reflexivity].
  now rewrite read_file_returns.
Qed.

Lemma call_terminate (args : value) :
  call_tool host (u "terminate") args
  = (m <- subscript args "message" ;; Returns [(u "terminate", m)]).
Proof. reflexivity. Qed.

Lemma call_error (args : value) :
  call_tool host (u "error") args
  = (m <- subscript args "message" ;; Returns [(u "error", m)]).
Proof. reflexivity. Qed.

(** C6. The tool map sends ["list_files"] to the directory listing,
    ["read_file"] to the reading of the file that the argument
    [file_name] names (its content or the error text), ["terminate"] and
    ["error"] to the argument [message], under the keys ["result"],
    ["result"], ["terminate"] and ["error"]; of the four tools only
    ["terminate"] gives a result with the key ["terminate"]. *)
Theorem tool_map_operations (args : value) :
  call_tool host (u "list_files") args
  = Returns [(u "result", VList (map VStr (listdir host)))]
  /\
  (forall file_name,
      subscript args "file_name" = Returns file_name ->
      call_tool host (u "read_file") args
      = Returns [(u "result", VStr (read_file_text host file_name))])
  /\
  (forall message,
      subscript args "message" = Returns message ->
      call_tool host (u "terminate") args = Returns [(u "terminate", message)] /\
      call_tool host (u "error") args = Returns [(u "error", message)])
  /\
  (forall name tool_result,
      In name tool_names ->
      call_tool host name args = Returns tool_result ->
      (dict_mem (u "terminate") tool_result = true <-> name = u "terminate")).
Proof.
  split; [apply call_list_files|]. split; [|split].
  - intros file_name H. now rewrite call_read_file, H.
  - intros message H. now rewrite call_terminate, call_error, H.
  - intros name tool_result [<-|[<-|[<-|[<-|[]]]]].
    + rewrite call_list_files. intros [= <-]. split; discriminate.
    + rewrite call_read_file.
      destruct (subscript args "file_name"); cbn [bind]; [|discriminate].
      intros [= <-]. split; discriminate.
    + rewrite call_terminate.
      destruct (subscript args "message"); cbn [bind]; [|discriminate].
      intros [= <-]. split; reflexivity.
    + rewrite call_error.
      destruct (subscript args "message"); cbn [bind]; [|discriminate].
      intros [= <-]. split; discriminate.
Qed.

End Tools.

(** An action whose function leaves the interpreter: the exception is
    not derived from [Exception], and [execute_action] lets it through
    instead of returning a dictionary. *)
Lemma system_exit_escapes :
  Game.function GameSpec.quitting [] = Raises (Exn SystemExit (u "0")) /\
  Game.execute_action sample_host GameSpec.quitting []
  = Raises (Exn SystemExit (u "0")) /\
  forall d : dict, Game.execute_action sample_host GameSpec.quitting [] <> Returns d.
Proof. repeat split. discriminate. Qed.

Lemma tool_map_operations_witness :
  call_tool sample_host (u "read_file")
    (VDict [(u "file_name", VStr (u "notes.txt")); (u "message", VStr (u "Done."))])
  = Returns [(u "result", VStr (u "remember the milk"))]
  /\
  call_tool sample_host (u "terminate")
    (VDict [(u "file_name", VStr (u "notes.txt")); (u "message", VStr (u "Done."))])
  = Returns [(u "terminate", VStr (u "Done."))].
Proof.
  destruct (tool_map_operations sample_host
              (VDict [(u "file_name", VStr (u "notes.txt"));
                      (u "message", VStr (u "Done."))]))
    as (_ & Hread & Hmessage & _).
  split.
  - apply (Hread (VStr (u "notes.txt"))). reflexivity.
  - apply (Hmessage (VStr (u "Done."))). reflexivity.
Defined.

End ToolFacts.

(* ================================================================== *)
(** * The agent loop *)
(* ================================================================== *)

Module LoopFacts.
Import Py AgentPE AgentSpec.
Local Open Scope py_scope.

Section Run.

Variable host : Host.
Variable replies : nat -> str.

Local Abbreviation loop := (loop host replies).
Local Abbreviation run := (run host replies).
Local Abbreviation entries := (entries host replies).
Local Abbreviation nonterminal := (nonterminal host replies).
Local Abbreviation terminal := (terminal host replies).

(** One turn of the loop, by the outcome of its dispatch. *)
Lemma loop_raises (n i : nat) (mem : list message) (e : exn) :
  dispatch host (replies i) = Raises e ->
  loop (S n) i mem
  = after [Print (IterationLine (i + 1)); Print ThinkingLine;
           Generate (agent_rules ++ mem); Print (ResponseLine (replies i))]
      (RunResult (Raises e) mem []).
Proof. intros H. cbn [AgentPE.loop]. now rewrite H. Qed.

Lemma loop_terminates (n i : nat) (mem : list message) (d : dict) :
  dispatch host (replies i) = Returns d ->
  dict_mem (u "terminate") d = true ->
  loop (S n) i mem
  = after [Print (IterationLine (i + 1)); Print ThinkingLine;
           Generate (agent_rules ++ mem); Print (ResponseLine (replies i))]
      (RunResult (Returns tt) mem [Print (TerminationLine (terminate_value d))]).
Proof. intros H Ht. cbn [AgentPE.loop]. now rewrite H, Ht. Qed.

Lemma loop_continues (n i : nat) (mem : list message) (d : dict) :
  dispatch host (replies i) = Returns d ->
  dict_mem (u "terminate") d = false ->
  loop (S n) i mem
  = after [Print (IterationLine (i + 1)); Print ThinkingLine;
           Generate (agent_rules ++ mem); Print (ResponseLine (replies i));
           Print (ActionResultLine d)]
      (loop n (S i)
         (mem ++ [Message (u "assistant") (replies i);
                  Message (u "user") (Json.dumps host (VDict d))])).
Proof. intros H Ht. cbn [AgentPE.loop]. now rewrite H, Ht. Qed.

(** The three outcomes of a turn. *)
Lemma turn_cases (i : nat) :
  (exists e, dispatch host (replies i) = Raises e) \/
  (exists d, dispatch host (replies i) = Returns d /\
             dict_mem (u "terminate") d = true) \/
  (exists d, dispatch host (replies i) = Returns d /\
             dict_mem (u "terminate") d = false).
Proof.
  destruct (dispatch host (replies i)) as [d|e].
  - destruct (dict_mem (u "terminate") d) eqn:T; eauto.
  - eauto.
Qed.

Ltac by_turn i :=
  let e := fresh "e" in
  let d := fresh "d" in
  let D := fresh "D" in
  let T := fresh "T" in
  destruct (turn_cases i) as [[e D]|[(d & D & T)|(d & D & T)]];
  [ rewrite (loop_raises _ _ _ _ D)
  | rewrite (loop_terminates _ _ _ _ D T)
  | rewrite (loop_continues _ _ _ _ D T) ].

Lemma turn_raises (i : nat) (e : exn) :
  dispatch host (replies i) = Raises e ->
  nonterminal i = false /\ terminal i = false.
Proof. intros D. unfold AgentSpec.nonterminal, AgentSpec.terminal. now rewrite D. Qed.

Lemma turn_returns (i : nat) (d : dict) :
  dispatch host (replies i) = Returns d ->
  nonterminal i = negb (dict_mem (u "terminate") d) /\
  terminal i = dict_mem (u "terminate") d /\
  tool_result host replies i = d.
Proof.
  intros D. unfold AgentSpec.nonterminal, AgentSpec.terminal, tool_result.
  now rewrite D.
Qed.

Lemma loop_memory (n : nat) :
  forall i mem,
    memory (loop n i mem)
    = mem ++ flat_map entries (take_while nonterminal (seq i n)).
Proof.
  induction n as [|n IH]; intros i mem.
  - cbn. now rewrite app_nil_r.
  - cbn [seq take_while]. by_turn i.
    + destruct (turn_raises _ _ D) as [-> _]. cbn. now rewrite app_nil_r.
    + destruct (turn_returns _ _ D) as (-> & _ & _). rewrite T.
      cbn. now rewrite app_nil_r.
    + destruct (turn_returns _ _ D) as (-> & _ & R). rewrite T.
      cbn [negb after memory flat_map].
      rewrite IH, <- app_assoc. f_equal.
      unfold AgentSpec.entries at 2. now rewrite R.
Qed.

(** The leading non-terminal iterations are consecutive from [i]. *)
Lemma take_while_seq (n : nat) :
  forall i,
    take_while nonterminal (seq i n)
    = seq i (List.length (take_while nonterminal (seq i n))).
Proof.
  induction n as [|n IH]; intros i; cbn [seq take_while]; [reflexivity|].
  destruct (nonterminal i); cbn [List.length seq]; [|reflexivity].
  now rewrite <- IH.
Qed.

Lemma loop_prompts (n : nat) :
  forall i mem,
    prompts (events (loop n i mem))
    = map (fun j => agent_rules ++ mem ++ flat_map entries (seq i j))
        (seq 0 (Nat.min n (S (List.length (take_while nonterminal (seq i n)))))).
Proof.
  induction n as [|n IH]; intros i mem.
  - reflexivity.
  - cbn [seq take_while]. rewrite <- Nat.succ_min_distr. by_turn i.
    + destruct (turn_raises _ _ D) as [-> _].
      cbn [List.length]. rewrite Nat.min_0_r. cbn. now rewrite app_nil_r.
    + destruct (turn_returns _ _ D) as (-> & _ & _). rewrite T.
      cbn [negb List.length]. rewrite Nat.min_0_r. cbn. now rewrite app_nil_r.
    + destruct (turn_returns _ _ D) as (-> & _ & R). rewrite T.
      cbn [negb after events app prompts List.length].
      rewrite IH. cbn [seq map flat_map].
      rewrite app_nil_r. f_equal.
      rewrite <- (seq_shift _ 0), map_map. apply map_ext. intros j.
      cbn [seq flat_map]. rewrite <- !app_assoc. do 2 f_equal.
      unfold AgentSpec.entries at 2. now rewrite R.
Qed.

Lemma length_flat_map_entries (l : list nat) :
  List.length (flat_map entries l) = 2 * List.length l.
Proof.
  induction l as [|j l IH]; [reflexivity|].
  cbn [flat_map List.length app AgentSpec.entries]. rewrite IH. lia.
Qed.

(** C3. A run of the agent leaves in [self.memory] the user's task
    followed, for each completed non-terminal iteration in order, by the
    model's raw reply with role [assistant] and the tool result
    serialized by [json.dumps] with role [user]; so the memory holds
    [1 + 2 * k] entries after [k] such iterations.  Every call of the
    model receives the system rules followed by the whole memory of that
    moment.  Below the cap the run starts one more iteration than the
    [k] non-terminal ones, the one that ends it, and that iteration
    appends nothing. *)
Theorem run_memory_growth (max_iterations : nat) (user_task : str) :
  let r := run max_iterations user_task in
  let k := completed host replies max_iterations in
  memory r = memory_after host replies user_task k /\
  List.length (memory r) = 1 + 2 * k /\
  prompts (events r)
  = map (fun j => agent_rules ++ memory_after host replies user_task j)
      (seq 0 (Nat.min max_iterations (S k))) /\
  iterations r = Nat.min max_iterations (S k).
Proof.
  intros r k. subst r k.
  unfold iterations, AgentPE.run, completed, memory_after.
  rewrite loop_memory, loop_prompts, <- take_while_seq.
  repeat split.
  - cbn [app List.length]. now rewrite length_flat_map_entries.
  - now rewrite length_map, length_seq.
Qed.

Lemma loop_halts (n : nat) :
  forall i mem,
    ended (loop n i mem) = Returns tt ->
    let r := loop n i mem in
    match find terminal (seq i n) with
    | Some j =>
        iterations r = S (j - i) /\
        (exists summary, printed (TerminationLine summary) r) /\
        ~ printed MaxIterationsLine r
    | None =>
        iterations r = n /\
        printed MaxIterationsLine r /\
        (forall summary, ~ printed (TerminationLine summary) r)
    end.
Proof.
  unfold iterations, printed.
  induction n as [|n IH]; intros i mem Hend.
  - cbn. repeat split; [now left|]. intros summary [H|[]]. discriminate.
  - cbn [seq find]. revert Hend. cbv zeta. by_turn i.
    + discriminate.
    + intros _. destruct (turn_returns _ _ D) as (_ & -> & _). rewrite T.
      rewrite Nat.sub_diag. repeat split.
      * exists (terminate_value d). cbn. tauto.
      * cbn [events after app In].
        intros [H|[H|[H|[H|[H|[]]]]]]; discriminate.
    + intros Hend. destruct (turn_returns _ _ D) as (_ & -> & _). rewrite T.
      cbn [after ended] in Hend. specialize (IH (S i) _ Hend). cbv zeta in IH.
      cbn [after events app prompts List.length In].
      destruct (find terminal (seq (S i) n)) as [j|] eqn:F.
      * apply find_some in F as [Hin _]. apply in_seq in Hin.
        destruct IH as (Hit & [summary Hs] & Hmax). repeat split.
        -- rewrite Hit. lia.
        -- exists summary. tauto.
        -- intros [H|[H|[H|[H|[H|H]]]]]; try discriminate. now apply Hmax.
      * destruct IH as (Hit & Hmax & Hs). repeat split.
        -- now rewrite Hit.
        -- tauto.
        -- intros summary [H|[H|[H|[H|[H|H]]]]]; try discriminate.
           now apply (Hs summary).
Qed.

(** C2, as far as it holds.  When [run] returns, that is when no
    iteration raises an exception, it has halted at the first iteration
    whose tool result contains ["terminate"], or after exactly
    [max_iterations] iterations if there is no such iteration below the
    cap; the termination line is printed in the first case only and the
    max-iterations line in the second case only. *)
Theorem run_halts (max_iterations : nat) (user_task : str) :
  ended (run max_iterations user_task) = Returns tt ->
  halts_as_specified host replies max_iterations user_task.
Proof.
  intros Hend. unfold halts_as_specified.
  pose proof (loop_halts max_iterations 0 _ Hend) as H. cbv zeta in H.
  fold (run max_iterations user_task) in H.
  destruct (find terminal (seq 0 max_iterations)); [|exact H].
  now rewrite Nat.sub_0_r in H.
Qed.

End Run.

Lemma run_halts_witness :
  halts_as_specified sample_host two_steps 10 (u "What is here?").
Proof. apply run_halts. vm_compute. reflexivity. Defined.

(** With a reply that asks for [read_file] without a [file_name] the
    first iteration raises [KeyError]: the run stops there, without a
    terminate result and well before the cap, and prints neither the
    termination line nor the max-iterations line. *)
Lemma run_raises :
  ended (run sample_host nameless_read 10 (u "Read it."))
  = Raises (Exn KeyError (u "'file_name'"))
  /\ iterations (run sample_host nameless_read 10 (u "Read it.")) = 1
  /\ ~ halts_as_specified sample_host nameless_read 10 (u "Read it.").
Proof.
  split; [|split].
  - vm_compute. reflexivity.
  - vm_compute. reflexivity.
  - intros H. vm_compute in H. destruct H as [H _]. discriminate H.
Qed.

End LoopFacts.

Module UnknownFacts.
Import Py AgentPE AgentSpec StrFacts LoopFacts.
Local Open Scope py_scope.

Section Unknown.

Variable host : Host.
Variable replies : nat -> str.

Local Abbreviation loop := (loop host replies).

Lemma tool_map_get_unknown (tool_name : value) :
  hashable tool_name = true ->
  (forall name, In name tool_names -> tool_name <> VStr name) ->
  tool_map_get (tool_map host) tool_name (unknown_action host tool_name)
  = Returns (unknown_action host tool_name).
Proof.
  intros Hh Hn.
  destruct tool_name as [| | | | name | |]; try reflexivity; try discriminate.
  assert (Hk : forall key, In key tool_names -> str_eqb name key = false).
  { intros key Hin. apply str_eqb_neq. intros ->. now apply (Hn key). }
  cbn [tool_map_get tool_map find fst].
  rewrite !Hk; [reflexivity| | | |]; cbn; tauto.
Qed.

(** C9, as far as it holds.  An action object whose [tool_name] is a
    hashable value (a string, a number, a boolean or [null]) other than
    the four tool names goes to the default handler, which answers
    [{"error": "Unknown action: <tool_name>"}]; this result has no
    ["terminate"] key, and the iteration appends its two entries to the
    memory and goes on with the next one. *)
Theorem unknown_tool_continues (response : str) (d : dict) (tool_name : value) :
  parse_action response = Returns (VDict d) ->
  dict_get (u "tool_name") d = Some tool_name ->
  hashable tool_name = true ->
  (forall name, In name tool_names -> tool_name <> VStr name) ->
  dispatch host response = Returns (unknown_result host tool_name) /\
  dict_mem (u "terminate") (unknown_result host tool_name) = false /\
  (forall n i mem,
      replies i = response ->
      loop (S n) i mem
      = after [Print (IterationLine (i + 1)); Print ThinkingLine;
               Generate (agent_rules ++ mem); Print (ResponseLine response);
               Print (ActionResultLine (unknown_result host tool_name))]
          (loop n (S i)
             (mem ++ [Message (u "assistant") response;
                      Message (u "user")
                        (Json.dumps host (VDict (unknown_result host tool_name)))]))).
Proof.
  intros Hp Hname Hh Hn.
  assert (D : dispatch host response = Returns (unknown_result host tool_name)).
  { unfold dispatch. rewrite Hp. cbn [bind get]. rewrite Hname. cbn [bind].
    now rewrite tool_map_get_unknown. }
  assert (T : dict_mem (u "terminate") (unknown_result host tool_name) = false)
    by reflexivity.
  repeat split; [exact D|].
  intros n i mem Hi. rewrite <- Hi in D |- *.
  exact (loop_continues host replies n i mem _ D T).
Qed.

End Unknown.

Lemma unknown_tool_continues_witness :
  dispatch sample_host (dance 0)
  = Returns (unknown_result sample_host (VStr (u "dance")))
  /\ ended (run sample_host dance 2 (u "Dance.")) = Returns tt
  /\ iterations (run sample_host dance 2 (u "Dance.")) = 2.
Proof.
  destruct (unknown_tool_continues sample_host dance (dance 0)
              [(u "tool_name", VStr (u "dance")); (u "args", VDict [])]
              (VStr (u "dance"))) as (D & _ & L).
  - vm_compute. reflexivity.
  - reflexivity.
  - reflexivity.
  - intros name [<-|[<-|[<-|[<-|[]]]]]; vm_compute; discriminate.
  - split; [exact D|]. unfold run.
    rewrite (L 1 0 _ eq_refl), (L 0 1 _ eq_refl). split; reflexivity.
Defined.

(** A list is not one of the four tool names, yet it does not reach the
    default handler: looking it up in the tool map raises [TypeError],
    and the run ends there with nothing appended to the memory. *)
Lemma unhashable_tool_name_raises :
  parse_action (list_named 0)
  = Returns (VDict [(u "tool_name", VList []); (u "args", VDict [])])
  /\ (forall name, In name tool_names -> VList [] <> VStr name)
  /\ dispatch sample_host (list_named 0)
     = raise TypeError "unhashable type: 'list'"
  /\ ended (run sample_host list_named 10 (u "Go."))
     = raise TypeError "unhashable type: 'list'"
  /\ memory (run sample_host list_named 10 (u "Go.")) = [Message (u "user") (u "Go.")].
Proof.
  repeat split; try (vm_compute; reflexivity). intros name _. discriminate.
Qed.

End UnknownFacts.

(* ================================================================== *)
(** * The quasi-agent *)
(* ================================================================== *)

Module QuasiFacts.
Import Py Quasi QuasiSpec StrFacts.
Local Open Scope py_scope.

Lemma fence_not_empty : AgentPE.fence <> [].
Proof. discriminate. Qed.

(** [split("```")[1]] is always there when the text has a fence, so
    [_extract_code_block] never raises [IndexError]. *)
Lemma _extract_code_block_returns (response : str) :
  _extract_code_block response = Returns (code_block response).
Proof.
  unfold _extract_code_block, code_block.
  destruct (contains AgentPE.fence response) eqn:Hc; cbn [negb]; [|reflexivity].
  destruct (split_from_present AgentPE.fence fence_not_empty response [] Hc)
    as (a & b & rest & E).
  unfold split. rewrite E. reflexivity.
Qed.

Lemma Forall_firstn {A} (P : A -> Prop) (n : nat) (l : list A) :
  Forall P l -> Forall P (firstn n l).
Proof.
  intros H. rewrite <- (firstn_skipn n l) in H. now apply Forall_app in H.
Qed.

Section QuasiAgent.

Variable host : Host.
Variable replies : nat -> str.
Variable typed : str.

(** C7. [develop_custom_function] sends three prompts to the model, one
    after the other.  The first message list is the system message and
    the request to write a function that does what was typed; the second
    adds the function it got, fenced, and the request for documentation;
    the third adds the documented function, fenced, and the request for
    tests.  It writes one file, whose text is the documented function,
    two newlines and the test cases, and returns the documented function,
    the test cases and the file name. *)
Theorem develop_custom_function_steps :
  let function_description := strip typed in
  let base_function := code_block (replies 0) in
  let documented_function := code_block (replies 1) in
  let test_cases := code_block (replies 2) in
  let filename := _build_filename host function_description in
  let first :=
    [ Message (u "system")
        (u "You are a Python expert helping to develop a function");
      Message (u "user")
        (u "Write a Python function that " ++ function_description ++
         u ". Output the function in a ```python code block```.") ] in
  let second :=
    first ++
    [ Message (u "assistant")
        (u "```python" ++ [10%N] ++ base_function ++ [10%N] ++ u "```");
      Message (u "user")
        (u "Add a comprehensive documentation to this function, including description, parameters, return value, examples, and edge cases. Output the function in a ```python code block```.") ] in
  let third :=
    second ++
    [ Message (u "assistant")
        (u "```python" ++ [10%N] ++ documented_function ++ [10%N] ++ u "```");
      Message (u "user")
        (u "Add unittest test cases for this function, including tests for basic functionality, edge cases, error cases and various input scenarios. Output the code in a ```python code block```.") ] in
  let run := develop_custom_function host replies typed (Log 0 []) in
  fst run = Returns (documented_function, test_cases, filename) /\
  generated (events (snd run)) = [first; second; third] /\
  written (events (snd run))
  = [(filename, documented_function ++ [10%N; 10%N] ++ test_cases)].
Proof.
  cbv zeta.
  unfold develop_custom_function, _interactive_input, iobind, emit, ret, lift,
    generate_response.
  cbn [calls events].
  rewrite !_extract_code_block_returns.
  cbn [calls events fst snd app generated written].
  repeat split.
Qed.

(** What does hold of a file name: it ends in [.py], its stem has at most
    30 characters (33 in all), and each character of the stem is an
    underscore, an alphanumeric character of the lower-cased description,
    or a whitespace character other than the space. *)
Lemma _build_filename_shape (description : str) :
  exists stem,
    _build_filename host description = stem ++ u ".py" /\
    List.length stem <= 30 /\
    Forall (fun c => c = 95%N \/ isalnum host c = true \/
                     (isspace c = true /\ c <> 32%N)) stem.
Proof.
  unfold _build_filename. eexists. split; [reflexivity|]. split.
  - rewrite length_firstn. lia.
  - apply Forall_firstn. unfold replace. rewrite Forall_map.
    apply Forall_forall. intros c Hc. apply filter_In in Hc as [_ Hc].
    destruct (N.eqb_spec c 32) as [->|Hne]; [now left|right].
    apply orb_true_iff in Hc as [Hc|Hc]; [now left|now right].
Qed.

(** C10. On the description [sort<TAB>a list] the file name is
    [sort<TAB>a_list.py]: the tab is whitespace, so the filter keeps it,
    and it is not a space, so it does not become an underscore.  The stem
    then has a character that is no lower-case letter, digit or
    underscore. *)
Theorem build_filename_keeps_tab :
  _build_filename host (u "sort" ++ [9%N] ++ u "a list")
  = u "sort" ++ [9%N] ++ u "a_list" ++ u ".py"
  /\ forallb stem_char (u "sort" ++ [9%N] ++ u "a_list") = false.
Proof. split; reflexivity. Qed.

End QuasiAgent.
End QuasiFacts.

(* ================================================================== *)
(** * More on strings *)
(* ================================================================== *)

Module StripFacts.
Import Py TextSpec StrFacts.

Lemma lstrip_idem (s : str) : lstrip (lstrip s) = lstrip s.
Proof.
  induction s as [|c s IH]; [reflexivity|]. cbn [lstrip].
  destruct (isspace c) eqn:E; [assumption|]. cbn [lstrip]. now rewrite E.
Qed.

Lemma lstrip_app (a b : str) :
  lstrip (a ++ b) = match lstrip a with [] => lstrip b | r => r ++ b end.
Proof.
  induction a as [|c a IH]; cbn [app lstrip]; [reflexivity|].
  destruct (isspace c); [assumption|reflexivity].
Qed.

(** [rstrip] from the front. *)
Lemma rstrip_cons (c : char) (s : str) :
  rstrip (c :: s)
  = match rstrip s with
    | [] => if isspace c then [] else [c]
    | r => c :: r
    end.
Proof.
  unfold rstrip. cbn [rev]. rewrite lstrip_app.
  destruct (lstrip (rev s)) as [|x r]; cbn [rev lstrip].
  - destruct (isspace c); reflexivity.
  - destruct (rev r ++ [x]) eqn:E.
    + now apply app_eq_nil in E as [_ E].
    + rewrite <- E, rev_app_distr. reflexivity.
Qed.

Lemma lstrip_rstrip (s : str) : lstrip (rstrip s) = rstrip (lstrip s).
Proof.
  induction s as [|c s IH]; [reflexivity|].
  rewrite rstrip_cons. cbn [lstrip].
  destruct (isspace c) eqn:E.
  - rewrite <- IH. destruct (rstrip s) as [|x r]; [reflexivity|].
    cbn [lstrip]. now rewrite E.
  - rewrite rstrip_cons.
    destruct (rstrip s) as [|x r]; rewrite ?E; cbn [lstrip]; now rewrite ?E.
Qed.

Lemma rstrip_idem (s : str) : rstrip (rstrip s) = rstrip s.
Proof.
  unfold rstrip. now rewrite rev_involutive, lstrip_idem.
Qed.

Lemma strip_idem (s : str) : strip (strip s) = strip s.
Proof.
  unfold strip. now rewrite lstrip_rstrip, lstrip_idem, rstrip_idem.
Qed.

Lemma strip_rstrip (s : str) : strip (rstrip s) = strip s.
Proof.
  unfold strip. now rewrite lstrip_rstrip, rstrip_idem.
Qed.

Lemma rstrip_app_solid (tag body : str) :
  solid tag = true -> rstrip (tag ++ body) = tag ++ rstrip body.
Proof.
  unfold solid. intros H. apply andb_true_iff in H as [Hne Hall].
  induction tag as [|c tag IH]; [discriminate|].
  cbn [forallb] in Hall. apply andb_true_iff in Hall as [Hc Hall].
  apply negb_true_iff in Hc.
  cbn [app]. rewrite rstrip_cons, Hc.
  destruct tag as [|c' tag].
  - cbn [app]. destruct (rstrip body); reflexivity.
  - rewrite IH; [|reflexivity|assumption]. reflexivity.
Qed.

(** A text that begins with a tag keeps the tag when it is stripped. *)
Lemma strip_tagged (tag body : str) :
  solid tag = true -> strip (tag ++ body) = tag ++ rstrip body.
Proof.
  intros H. unfold strip.
  assert (L : lstrip (tag ++ body) = tag ++ body).
  { unfold solid in H. apply andb_true_iff in H as [Hne Hall].
    destruct tag as [|c tag]; [discriminate|].
    cbn [forallb] in Hall. apply andb_true_iff in Hall as [Hc _].
    apply negb_true_iff in Hc. cbn [app lstrip]. now rewrite Hc. }
  rewrite L. now apply rstrip_app_solid.
Qed.

Lemma startswith_app (a b : str) : startswith a (a ++ b) = true.
Proof.
  induction a as [|c a IH]; [reflexivity|]. cbn [app startswith].
  now rewrite N.eqb_refl.
Qed.

Lemma skipn_app_length {A} (a b : list A) : skipn (List.length a) (a ++ b) = b.
Proof. induction a as [|x a IH]; [reflexivity|assumption]. Qed.

(** Cutting at the fences: a text without backtick up to a fence is the
    first piece. *)
Lemma split_from_fence (a rest : str) :
  no_backtick a = true ->
  forall cur,
    split_from AgentPE.fence 0 cur (a ++ AgentPE.fence ++ rest)
    = (rev cur ++ a) :: split AgentPE.fence rest.
Proof.
  intros Ha. induction a as [|c a IH]; intros cur.
  - cbn [app]. rewrite app_nil_r. reflexivity.
  - cbn [no_backtick forallb] in Ha. apply andb_true_iff in Ha as [Hc Ha].
    apply negb_true_iff in Hc.
    cbn [app split_from].
    assert (Hs : startswith AgentPE.fence (c :: a ++ AgentPE.fence ++ rest) = false).
    { change AgentPE.fence with [96%N; 96%N; 96%N] at 1. cbn [startswith].
      rewrite N.eqb_sym, Hc. reflexivity. }
    rewrite Hs, (IH Ha). cbn [rev]. now rewrite <- app_assoc.
Qed.

Lemma split_fence (a rest : str) :
  no_backtick a = true ->
  split AgentPE.fence (a ++ AgentPE.fence ++ rest) = a :: split AgentPE.fence rest.
Proof. intros Ha. unfold split at 1. now rewrite split_from_fence. Qed.

Lemma contains_fence (a rest : str) :
  contains AgentPE.fence (a ++ AgentPE.fence ++ rest) = true.
Proof.
  induction a as [|c a IH].
  - cbn [app]. destruct (AgentPE.fence ++ rest) eqn:E; [discriminate|].
    rewrite contains_cons, <- E, startswith_app. reflexivity.
  - cbn [app]. rewrite contains_cons, IH. apply orb_true_r.
Qed.

End StripFacts.

(* ================================================================== *)
(** * More on the action parser *)
(* ================================================================== *)

Module BlockFacts.
Import Py AgentPE AgentSpec TextSpec StrFacts StripFacts ExtractFacts.

Lemma odd_indices_two (k : nat) :
  exists rest, odd_indices (S (S k)) = 1 :: rest.
Proof.
  destruct (odd_indices_split (S (S k)) 1 eq_refl) as (pre & post & E & Hpre); [lia|].
  destruct pre as [|j pre].
  - now exists post.
  - destruct (Hpre j (or_introl eq_refl)) as [Ho Hj].
    assert (j = 0) by lia. subst j. discriminate.
Qed.

Lemma first_block_stripped (block_type : str) (parts : list str) :
  forall indices block,
    first_block block_type parts indices = Some block ->
    strip block = block.
Proof.
  induction indices as [|i indices IH]; intros block; cbn [first_block]; [discriminate|].
  destruct (startswith block_type (strip (nth i parts []))); [|apply IH].
  intros [= <-]. apply strip_idem.
Qed.

(** X1. A reply with a fenced block opened by the tag: whatever comes
    before the block (without backtick) and after it, the block's body
    comes back, trimmed at both ends. *)
Theorem extract_markdown_block_tagged (pre tag body post : str) :
  no_backtick pre = true ->
  no_backtick (tag ++ body) = true ->
  solid tag = true ->
  extract_markdown_block (pre ++ fence ++ (tag ++ body) ++ fence ++ post) tag
  = strip body.
Proof.
  intros Hpre Hbody Htag. unfold extract_markdown_block.
  rewrite contains_fence. cbn [negb].
  rewrite (split_fence pre _ Hpre), (split_fence (tag ++ body) _ Hbody).
  cbn [List.length].
  destruct (odd_indices_two (List.length (split fence post))) as [rest ->].
  cbn [first_block nth].
  rewrite (strip_tagged _ _ Htag), startswith_app, skipn_app_length.
  now rewrite strip_rstrip.
Qed.

Lemma extract_markdown_block_tagged_witness :
  extract_markdown_block
    (u "Here: " ++ fence ++ (u "json" ++ u " [1, 2] ") ++ fence ++ u " bye")
    (u "json")
  = strip (u " [1, 2] ").
Proof.
  apply extract_markdown_block_tagged; reflexivity.
Defined.

(** X2. What [extract_markdown_block] returns is the reply itself when
    the reply has no fence, and a text without whitespace at its ends
    when it has one, whatever the tag. *)
Theorem extract_markdown_block_trimmed (response block_type : str) :
  extract_markdown_block response block_type
  = if contains fence response
    then strip (extract_markdown_block response block_type)
    else response.
Proof.
  unfold extract_markdown_block.
  destruct (contains fence response); cbn [negb]; [|reflexivity].
  destruct (first_block block_type (split fence response)
              (odd_indices (List.length (split fence response)))) as [block|] eqn:E.
  - symmetry. exact (first_block_stripped _ _ _ _ E).
  - symmetry. apply strip_idem.
Qed.

End BlockFacts.

Module ParseOutcome.
Import Py AgentPE AgentSpec StrFacts JsonFacts ParseFacts.
Local Open Scope py_scope.


End ParseOutcome.

(* ================================================================== *)
(** * More on the quasi-agent *)
(* ================================================================== *)

Module CodeBlockFacts.
Import Py Quasi QuasiSpec TextSpec StrFacts StripFacts QuasiFacts.
Local Open Scope py_scope.

Lemma no_backtick_app (a b : str) :
  no_backtick (a ++ b) = no_backtick a && no_backtick b.
Proof. apply forallb_app. Qed.

(** X11. [_extract_code_block] never raises: when the reply has a fence,
    the piece after it exists. *)
Theorem extract_code_block_never_raises (response : str) (e : exn) :
  _extract_code_block response <> Raises e.
Proof. rewrite _extract_code_block_returns. discriminate. Qed.

(** X12. From a reply with a [python] block, whatever comes before the
    block (without backtick) and after it, [_extract_code_block] returns
    the body of the block with the whitespace at its end removed; the
    whitespace at its start, such as the newline after the tag, stays. *)
Theorem extract_code_block_python (pre body post : str) :
  no_backtick pre = true ->
  no_backtick body = true ->
  _extract_code_block
    (pre ++ AgentPE.fence ++ (u "python" ++ body) ++ AgentPE.fence ++ post)
  = Returns (rstrip body).
Proof.
  intros Hpre Hbody. rewrite _extract_code_block_returns. f_equal.
  unfold code_block. rewrite contains_fence.
  assert (Hb : no_backtick (u "python" ++ body) = true)
    by (rewrite no_backtick_app, Hbody; reflexivity).
  rewrite (split_fence pre _ Hpre), (split_fence _ _ Hb). cbn [nth].
  rewrite (strip_tagged (u "python") body eq_refl), startswith_app.
  exact (skipn_app_length (u "python") (rstrip body)).
Qed.

Lemma extract_code_block_python_witness :
  _extract_code_block
    (u "Sure. " ++ AgentPE.fence ++ (u "python" ++ newline ++ u "x = 1" ++ newline)
       ++ AgentPE.fence ++ u " Done.")
  = Returns (newline ++ u "x = 1").
Proof.
  rewrite (extract_code_block_python (u "Sure. ") (newline ++ u "x = 1" ++ newline)
             (u " Done.")); reflexivity.
Defined.

(** X13. From a reply whose first block does not start with [python],
    the whole body of the block comes back, trimmed at both ends. *)
Theorem extract_code_block_plain (pre body post : str) :
  no_backtick pre = true ->
  no_backtick body = true ->
  startswith (u "python") (strip body) = false ->
  _extract_code_block (pre ++ AgentPE.fence ++ body ++ AgentPE.fence ++ post)
  = Returns (strip body).
Proof.
  intros Hpre Hbody Htag. rewrite _extract_code_block_returns. f_equal.
  unfold code_block. rewrite contains_fence.
  rewrite (split_fence pre _ Hpre), (split_fence _ _ Hbody). cbn [nth].
  now rewrite Htag.
Qed.

Lemma extract_code_block_plain_witness :
  _extract_code_block
    (u "Sure. " ++ AgentPE.fence ++ u " def f(): pass " ++ AgentPE.fence ++ u "")
  = Returns (u "def f(): pass").
Proof.
  rewrite (extract_code_block_plain (u "Sure. ") (u " def f(): pass ") (u ""));
    reflexivity.
Defined.

End CodeBlockFacts.

Module FilenameFacts.
Import Py Quasi QuasiSpec StrFacts QuasiFacts.
Local Open Scope N_scope.

Section Filename.

Variable host : Host.

Ltac bools :=
  unfold is_ascii, is_upper_ascii, is_lower_ascii, is_digit_ascii, isspace, stem_char in *;
  repeat match goal with
         | H : _ && _ = true |- _ => apply andb_true_iff in H as [? ?]
         | H : _ || _ = true |- _ => apply orb_true_iff in H as [?|?]
         | H : _ && _ = false |- _ => apply andb_false_iff in H as [?|?]
         | H : _ || _ = false |- _ => apply orb_false_iff in H as [? ?]
         | H : negb _ = true |- _ => apply negb_true_iff in H
         | H : (_ <=? _) = true |- _ => apply N.leb_le in H
         | H : (_ <=? _) = false |- _ => apply N.leb_gt in H
         | H : (_ <? _) = true |- _ => apply N.ltb_lt in H
         | H : (_ <? _) = false |- _ => apply N.ltb_ge in H
         | H : (_ =? _) = true |- _ => apply N.eqb_eq in H
         | H : (_ =? _) = false |- _ => apply N.eqb_neq in H
         end.

Lemma lower_ascii_is_ascii (c : char) :
  is_ascii c = true -> is_ascii (lower_ascii c) = true.
Proof.
  unfold lower_ascii. destruct (is_upper_ascii c) eqn:U; [|trivial].
  intros _. bools. apply N.ltb_lt. lia.
Qed.

Lemma lower_ascii_not_upper (c : char) : is_upper_ascii (lower_ascii c) = false.
Proof.
  unfold lower_ascii. destruct (is_upper_ascii c) eqn:U; [|assumption].
  bools. apply andb_false_iff. right. apply N.leb_gt. lia.
Qed.

Lemma lower_ascii_isspace (c : char) : isspace (lower_ascii c) = isspace c.
Proof.
  unfold lower_ascii. destruct (is_upper_ascii c) eqn:U; [|reflexivity].
  assert (65 <= c <= 90) by (bools; lia).
  unfold isspace.
  repeat match goal with
         | |- context [?a <=? ?b] =>
             destruct (N.leb_spec a b); try lia
         | |- context [?a =? ?b] =>
             destruct (N.eqb_spec a b); try lia
         end; reflexivity.
Qed.

Lemma lower_ascii_isalnum (c : char) :
  is_ascii c = true -> isalnum host (lower_ascii c) = isalnum host c.
Proof.
  intros A. unfold isalnum. rewrite (lower_ascii_is_ascii _ A), A.
  unfold lower_ascii. destruct (is_upper_ascii c) eqn:U; [|now rewrite ?U].
  assert (65 <= c <= 90) by (bools; lia).
  unfold is_upper_ascii, is_lower_ascii, is_digit_ascii.
  repeat match goal with
         | |- context [?a <=? ?b] =>
             destruct (N.leb_spec a b); try lia
         end; reflexivity.
Qed.

Lemma lower_ascii_text (description : str) :
  forallb is_ascii description = true ->
  lower host description = map lower_ascii description.
Proof. intros A. unfold lower. now rewrite A. Qed.

Lemma filter_map_lower (description : str) :
  forallb is_ascii description = true ->
  filter (fun c => isalnum host c || isspace c) (map lower_ascii description)
  = map lower_ascii (filter (fun c => isalnum host c || isspace c) description).
Proof.
  induction description as [|c d IH]; [reflexivity|].
  cbn [forallb]. intros A. apply andb_true_iff in A as [Ac Ad].
  cbn [map filter]. rewrite (lower_ascii_isalnum _ Ac), lower_ascii_isspace.
  destruct (isalnum host c || isspace c); cbn [map]; now rewrite (IH Ad).
Qed.

Lemma forallb_filter {A} (p k : A -> bool) (l : list A) :
  forallb p l = true -> forallb p (filter k l) = true.
Proof.
  induction l as [|a l IH]; [trivial|]. cbn [forallb filter].
  intros H. apply andb_true_iff in H as [Ha Hl].
  destruct (k a); cbn [forallb]; [rewrite Ha|]; now apply IH.
Qed.

Lemma filter_filter {A} (k : A -> bool) (l : list A) :
  filter k (filter k l) = filter k l.
Proof.
  induction l as [|a l IH]; [reflexivity|]. cbn [filter].
  destruct (k a) eqn:E; [|assumption]. cbn [filter]. now rewrite E, IH.
Qed.

(** X14. Characters that are neither alphanumeric nor whitespace play no
    part in the file name: an ASCII description and the same description
    without them get the same file name. *)
Theorem build_filename_ignores_punctuation (description : str) :
  forallb is_ascii description = true ->
  _build_filename host (filter (fun c => isalnum host c || isspace c) description)
  = _build_filename host description.
Proof.
  intros A. unfold _build_filename.
  rewrite (lower_ascii_text _ A), (lower_ascii_text _ (forallb_filter _ _ _ A)).
  rewrite (filter_map_lower _ A), (filter_map_lower _ (forallb_filter _ _ _ A)).
  now rewrite filter_filter.
Qed.

(** X15. For an ASCII description whose only whitespace is the space,
    the file name ends in [.py], its stem has at most 30 characters, and
    the stem is made of lower-case letters, digits and underscores. *)
Theorem build_filename_clean (description : str) :
  forallb is_ascii description = true ->
  forallb (fun c => negb (isspace c) || (c =? 32)) description = true ->
  exists stem,
    _build_filename host description = stem ++ u ".py" /\
    (List.length stem <= 30)%nat /\
    forallb stem_char stem = true.
Proof.
  intros A W. unfold _build_filename. eexists. split; [reflexivity|]. split.
  - rewrite length_firstn. lia.
  - apply forallb_forall. apply Forall_forall. apply Forall_firstn.
    unfold replace. rewrite (lower_ascii_text _ A), Forall_map.
    apply Forall_forall. intros c0 Hin. apply filter_In in Hin as [Hin Hkeep].
    apply in_map_iff in Hin as (c & <- & Hc).
    pose proof (proj1 (forallb_forall _ _) A c Hc) as Ac.
    pose proof (proj1 (forallb_forall _ _) W c Hc) as Wc. cbv beta in Wc.
    destruct (N.eqb_spec (lower_ascii c) 32) as [_|Hne]; [reflexivity|].
    rewrite lower_ascii_isspace in Hkeep.
    destruct (isspace c) eqn:S.
    + exfalso. cbn [negb orb] in Wc. apply N.eqb_eq in Wc. subst c. now apply Hne.
    + rewrite orb_false_r in Hkeep. unfold isalnum in Hkeep.
      rewrite (lower_ascii_is_ascii _ Ac), lower_ascii_not_upper in Hkeep.
      cbn [orb] in Hkeep. unfold stem_char. now rewrite Hkeep.
Qed.

End Filename.

Lemma build_filename_ignores_punctuation_witness :
  _build_filename sample_host
    (filter (fun c => isalnum sample_host c || isspace c) (u "Sum, of: two (numbers)!"))
  = _build_filename sample_host (u "Sum, of: two (numbers)!").
Proof.
  apply build_filename_ignores_punctuation. reflexivity.
Defined.

Lemma build_filename_clean_witness :
  exists stem,
    _build_filename sample_host (u "Sum, of: two (numbers)!") = stem ++ u ".py" /\
    (List.length stem <= 30)%nat /\
    forallb stem_char stem = true.
Proof.
  apply build_filename_clean; reflexivity.
Defined.

End FilenameFacts.

(* ================================================================== *)
(** * More on the agent loop *)
(* ================================================================== *)

Module LoopExtra.
Import Py AgentPE AgentSpec TextSpec RunSpec StrFacts JsonFacts ParseFacts LoopFacts.
Local Open Scope py_scope.

Lemma take_while_length {A} (test : A -> bool) (l : list A) :
  List.length (take_while test l) <= List.length l.
Proof.
  induction l as [|a l IH]; [apply Nat.le_refl|]. cbn [take_while].
  destruct (test a); cbn [List.length]; lia.
Qed.

Lemma take_while_app {A} (test : A -> bool) (l l' : list A) :
  prefix_of (take_while test l) (take_while test (l ++ l')).
Proof.
  induction l as [|a l [tail IH]]; cbn [app take_while].
  - now exists (take_while test l').
  - destruct (test a); [|now exists []].
    exists tail. cbn [app]. now rewrite IH.
Qed.

Lemma take_while_all {A} (test : A -> bool) (l : list A) :
  (forall a, In a l -> test a = true) -> take_while test l = l.
Proof.
  induction l as [|a l IH]; intros H; [reflexivity|]. cbn [take_while].
  rewrite (H a (or_introl eq_refl)). f_equal. apply IH.
  intros b Hb. apply H. now right.
Qed.

(** The error action goes to the [error] tool, which hands its message
    back. *)
Lemma dispatch_error_action (host : Host) (response : str) (message : string) :
  parse_action response = Returns (error_action message) ->
  dispatch host response = Returns [(u "error", VStr (u message))].
Proof. intros P. unfold dispatch. rewrite P. reflexivity. Qed.

(** X4. A reply that cannot be used as an action does not stop the
    agent: when the decoder rejects the payload with [JSONDecodeError],
    and when the payload decodes to an object that lacks ["tool_name"] or
    ["args"], the dispatch answers with an ["error"] result that says so,
    which is not a terminate result. *)
Theorem bad_reply_answered (host : Host) (response : str) :
  (forall e,
      Json.loads (extract_markdown_block response (u "action")) = Raises e ->
      exn_class_of e = JSONDecodeError ->
      dispatch host response
      = Returns [(u "error", VStr (u "Malformed JSON in action block."))])
  /\
  (forall d,
      Json.loads (extract_markdown_block response (u "action")) = Returns (VDict d) ->
      dict_mem (u "tool_name") d && dict_mem (u "args") d = false ->
      dispatch host response
      = Returns [(u "error", VStr (u "Missing required fields in action JSON."))]).
Proof.
  split.
  - intros e L C. apply dispatch_error_action.
    apply (parse_action_malformed _ _ L). now rewrite C.
  - intros d L M. apply dispatch_error_action.
    rewrite (parse_action_object _ _ L), M. reflexivity.
Qed.

Lemma bad_reply_answered_witness :
  dispatch sample_host (u "I am not sure what to do.")
  = Returns [(u "error", VStr (u "Malformed JSON in action block."))]
  /\
  dispatch sample_host (q "```action {'tool_name': 'list_files'} ```")
  = Returns [(u "error", VStr (u "Missing required fields in action JSON."))].
Proof.
  split.
  - destruct (bad_reply_answered sample_host (u "I am not sure what to do.")) as [H _].
    apply (H (Exn JSONDecodeError (u "Expecting value"))); vm_compute; reflexivity.
  - destruct (bad_reply_answered sample_host
                (q "```action {'tool_name': 'list_files'} ```")) as [_ H].
    eapply H; vm_compute; reflexivity.
Defined.

Section Run.

Variable host : Host.
Variable replies : nat -> str.

Local Abbreviation loop := (loop host replies).
Local Abbreviation run := (run host replies).
Local Abbreviation entries := (entries host replies).
Local Abbreviation nonterminal := (nonterminal host replies).
Local Abbreviation terminal := (terminal host replies).

Ltac turn i :=
  let e := fresh "e" in
  let d := fresh "d" in
  let D := fresh "D" in
  let T := fresh "T" in
  destruct (turn_cases host replies i) as [[e D]|[(d & D & T)|(d & D & T)]];
  [ rewrite (loop_raises host replies _ _ _ _ D)
  | rewrite (loop_terminates host replies _ _ _ _ D T)
  | rewrite (loop_continues host replies _ _ _ _ D T) ].

(** X5. The cap bounds the work: a run calls the model at most
    [max_iterations] times and leaves at most [1 + 2 * max_iterations]
    entries in the memory. *)
Theorem run_within_cap (max_iterations : nat) (user_task : str) :
  iterations (run max_iterations user_task) <= max_iterations /\
  List.length (memory (run max_iterations user_task)) <= 1 + 2 * max_iterations.
Proof.
  unfold iterations, AgentPE.run. rewrite loop_prompts, loop_memory.
  pose proof (take_while_length nonterminal (seq 0 max_iterations)) as L.
  rewrite length_seq in L. split.
  - rewrite length_map, length_seq. lia.
  - rewrite length_app, length_flat_map_entries. cbn [List.length]. lia.
Qed.

(** X6. A higher cap only continues the conversation: the memory left
    by a run is a front part of the memory left by the run with the same
    task and replies and a higher cap. *)
Theorem run_memory_extends (max_iterations more : nat) (user_task : str) :
  prefix_of (memory (run max_iterations user_task))
            (memory (run (max_iterations + more) user_task)).
Proof.
  unfold AgentPE.run. rewrite !loop_memory, seq_app.
  destruct (take_while_app nonterminal (seq 0 max_iterations)
              (seq (0 + max_iterations) more)) as [tail ->].
  exists (flat_map entries tail). now rewrite flat_map_app, app_assoc.
Qed.

Lemma nonterminal_turn (i : nat) :
  nonterminal i = true ->
  exists d, dispatch host (replies i) = Returns d /\
            dict_mem (u "terminate") d = false /\
            tool_result host replies i = d.
Proof.
  unfold AgentSpec.nonterminal, tool_result.
  destruct (dispatch host (replies i)) as [d|e]; [|discriminate].
  intros H. apply negb_true_iff in H. now exists d.
Qed.

Lemma loop_raises_at (k : nat) :
  forall n i mem e,
    k < n ->
    (forall t, t < k -> nonterminal (i + t) = true) ->
    dispatch host (replies (i + k)) = Raises e ->
    ended (loop n i mem) = Raises e /\
    memory (loop n i mem) = mem ++ flat_map entries (seq i k) /\
    List.length (prompts (events (loop n i mem))) = S k /\
    ~ In (Print MaxIterationsLine) (events (loop n i mem)) /\
    (forall summary, ~ In (Print (TerminationLine summary)) (events (loop n i mem))).
Proof.
  induction k as [|k IH]; intros n i mem e Hn Hbefore D;
    (destruct n as [|n]; [lia|]).
  - rewrite Nat.add_0_r in D. rewrite (loop_raises host replies _ _ _ _ D).
    cbn [after ended memory events app seq flat_map prompts List.length In].
    rewrite app_nil_r. repeat split.
    + intros [H|[H|[H|[H|[]]]]]; discriminate.
    + intros summary [H|[H|[H|[H|[]]]]]; discriminate.
  - destruct (nonterminal_turn i) as (d0 & D0 & T0 & R0).
    { rewrite <- (Nat.add_0_r i). apply Hbefore. lia. }
    rewrite (loop_continues host replies _ _ _ _ D0 T0).
    destruct (IH n (S i)
                (mem ++ [Message (u "assistant") (replies i);
                         Message (u "user") (Json.dumps host (VDict d0))]) e)
      as (He & Hm & Hp & Hmax & Hs).
    + lia.
    + intros t Ht. rewrite Nat.add_succ_l, <- Nat.add_succ_r. apply Hbefore. lia.
    + now rewrite Nat.add_succ_l, <- Nat.add_succ_r.
    + cbn [after ended memory events app prompts List.length In].
      repeat split.
      * assumption.
      * rewrite Hm, <- app_assoc. cbn [seq flat_map]. f_equal.
        unfold AgentSpec.entries at 2. rewrite R0. reflexivity.
      * now rewrite Hp.
      * intros [H|[H|[H|[H|[H|H]]]]]; try discriminate. now apply Hmax.
      * intros summary [H|[H|[H|[H|[H|H]]]]]; try discriminate.
        now apply (Hs summary).
Qed.

(** X7. When the iterations before number [j] are non-terminal and the
    dispatch of the one with number [j], below the cap, raises, the run
    raises the same exception; the model has then been called [j + 1]
    times, the memory holds the entries of the [j] iterations before and
    nothing of the failing one, and neither the termination line nor the
    max-iterations line is printed. *)
Theorem run_raise_point (max_iterations j : nat) (user_task : str) (e : exn) :
  j < max_iterations ->
  (forall i, i < j -> nonterminal i = true) ->
  dispatch host (replies j) = Raises e ->
  let r := run max_iterations user_task in
  ended r = Raises e /\
  memory r = memory_after host replies user_task j /\
  iterations r = S j /\
  ~ printed MaxIterationsLine r /\
  (forall summary, ~ printed (TerminationLine summary) r).
Proof.
  intros Hj Hbefore D r. subst r.
  unfold printed, iterations, AgentPE.run, memory_after.
  exact (loop_raises_at j max_iterations 0 _ e Hj Hbefore D).
Qed.

Lemma iteration_numbers_loop (n : nat) :
  forall i mem,
    iteration_numbers (events (loop n i mem))
    = seq (i + 1) (List.length (prompts (events (loop n i mem)))).
Proof.
  induction n as [|n IH]; intros i mem; [reflexivity|]. turn i.
  - reflexivity.
  - reflexivity.
  - cbn [after events app iteration_numbers prompts List.length seq].
    rewrite IH. reflexivity.
Qed.

(** X8. The iteration lines that a run prints are numbered 1, 2, ... up
    to the number of iterations it started, in this order. *)
Theorem run_iteration_numbers (max_iterations : nat) (user_task : str) :
  iteration_numbers (events (run max_iterations user_task))
  = seq 1 (iterations (run max_iterations user_task)).
Proof. unfold iterations, AgentPE.run. now rewrite iteration_numbers_loop. Qed.

Lemma loop_stops_at (k : nat) :
  forall n i mem d,
    k < n ->
    (forall t, t < k -> nonterminal (i + t) = true) ->
    dispatch host (replies (i + k)) = Returns d ->
    dict_mem (u "terminate") d = true ->
    ended (loop n i mem) = Returns tt /\
    memory (loop n i mem) = mem ++ flat_map entries (seq i k) /\
    List.length (prompts (events (loop n i mem))) = S k /\
    exists es, events (loop n i mem) = es ++ [Print (TerminationLine (terminate_value d))].
Proof.
  induction k as [|k IH]; intros n i mem d Hn Hbefore D T;
    (destruct n as [|n]; [lia|]).
  - rewrite Nat.add_0_r in D. rewrite (loop_terminates host replies _ _ _ _ D T).
    cbn [after ended memory events app seq flat_map prompts List.length].
    rewrite app_nil_r. repeat split.
    eexists [_; _; _; _]. reflexivity.
  - destruct (nonterminal_turn i) as (d0 & D0 & T0 & R0).
    { rewrite <- (Nat.add_0_r i). apply Hbefore. lia. }
    rewrite (loop_continues host replies _ _ _ _ D0 T0).
    destruct (IH n (S i)
                (mem ++ [Message (u "assistant") (replies i);
                         Message (u "user") (Json.dumps host (VDict d0))]) d)
      as (He & Hm & Hp & es & Hes).
    + lia.
    + intros t Ht. rewrite Nat.add_succ_l, <- Nat.add_succ_r. apply Hbefore. lia.
    + now rewrite Nat.add_succ_l, <- Nat.add_succ_r.
    + assumption.
    + cbn [after ended memory events app prompts List.length].
      repeat split.
      * assumption.
      * rewrite Hm, <- app_assoc. cbn [seq flat_map]. f_equal.
        unfold AgentSpec.entries at 2. rewrite R0. reflexivity.
      * now rewrite Hp.
      * rewrite Hes. eexists (_ :: _ :: _ :: _ :: _ :: es). reflexivity.
Qed.

(** X9. When the iterations before number [j] are non-terminal and the
    one with number [j], below the cap, dispatches to the [terminate]
    tool with a message [m] that the console can print, the run returns
    after [j + 1] iterations; the last thing it prints is the termination
    line with [m]; the memory holds the entries of the [j] iterations
    before and not the message. *)
Theorem run_terminates_with (max_iterations j : nat) (user_task : str) (m : value) :
  j < max_iterations ->
  (forall i, i < j -> nonterminal i = true) ->
  dispatch host (replies j) = Returns [(u "terminate", m)] ->
  printable m = true ->
  let r := run max_iterations user_task in
  ended r = Returns tt /\
  memory r = memory_after host replies user_task j /\
  iterations r = S j /\
  exists es, events r = es ++ [Print (TerminationLine m)].
Proof.
  intros Hj Hbefore D _ r. subst r. unfold iterations, AgentPE.run, memory_after.
  exact (loop_stops_at j max_iterations 0 _ _ Hj Hbefore D eq_refl).
Qed.

Lemma loop_exhausts (n : nat) :
  forall i mem,
    (forall t, t < n -> nonterminal (i + t) = true) ->
    ended (loop n i mem) = Returns tt /\
    exists es, events (loop n i mem) = es ++ [Print MaxIterationsLine].
Proof.
  induction n as [|n IH]; intros i mem H.
  - split; [reflexivity|]. now exists [].
  - destruct (nonterminal_turn i) as (d0 & D0 & T0 & R0).
    { rewrite <- (Nat.add_0_r i). apply H. lia. }
    rewrite (loop_continues host replies _ _ _ _ D0 T0).
    destruct (IH (S i)
                (mem ++ [Message (u "assistant") (replies i);
                         Message (u "user") (Json.dumps host (VDict d0))]))
      as (He & es & Hes).
    + intros t Ht. rewrite Nat.add_succ_l, <- Nat.add_succ_r. apply H. lia.
    + cbn [after ended events app]. split; [assumption|].
      rewrite Hes. eexists (_ :: _ :: _ :: _ :: _ :: es). reflexivity.
Qed.

(** X10. When every iteration below the cap is non-terminal, the run
    returns after exactly [max_iterations] iterations, the last thing it
    prints is the max-iterations line, and the memory holds the task and
    two entries for each iteration. *)
Theorem run_reaches_cap (max_iterations : nat) (user_task : str) :
  (forall i, i < max_iterations -> nonterminal i = true) ->
  let r := run max_iterations user_task in
  ended r = Returns tt /\
  iterations r = max_iterations /\
  memory r = memory_after host replies user_task max_iterations /\
  exists es, events r = es ++ [Print MaxIterationsLine].
Proof.
  intros H r. subst r.
  assert (Hall : take_while nonterminal (seq 0 max_iterations) = seq 0 max_iterations).
  { apply take_while_all. intros i Hi. apply in_seq in Hi. apply H. lia. }
  destruct (loop_exhausts max_iterations 0 [Message (u "user") user_task] H)
    as (He & Hes).
  unfold iterations, AgentPE.run, memory_after.
  rewrite loop_memory, loop_prompts, Hall, length_map, !length_seq.
  repeat split; [assumption|lia|assumption].
Qed.

End Run.

Lemma run_raise_point_witness :
  ended (run sample_host nameless_read 5 (u "Read it."))
  = Raises (Exn KeyError (u "'file_name'")) /\
  iterations (run sample_host nameless_read 5 (u "Read it.")) = 1.
Proof.
  destruct (run_raise_point sample_host nameless_read 5 0 (u "Read it.")
              (Exn KeyError (u "'file_name'"))) as (E & _ & I & _).
  - lia.
  - intros i Hi. lia.
  - vm_compute. reflexivity.
  - split; assumption.
Defined.

Lemma run_terminates_with_witness :
  ended (run sample_host two_steps 10 (u "What is here?")) = Returns tt /\
  iterations (run sample_host two_steps 10 (u "What is here?")) = 2.
Proof.
  destruct (run_terminates_with sample_host two_steps 10 1 (u "What is here?")
              (VStr (u "One file."))) as (E & _ & I & _).
  - lia.
  - intros i Hi. assert (i = 0) by lia. subst i. vm_compute. reflexivity.
  - vm_compute. reflexivity.
  - vm_compute. reflexivity.
  - split; assumption.
Defined.

Lemma run_reaches_cap_witness :
  ended (run sample_host dance 3 (u "Dance.")) = Returns tt /\
  iterations (run sample_host dance 3 (u "Dance.")) = 3.
Proof.
  destruct (run_reaches_cap sample_host dance 3 (u "Dance.")) as (E & I & _).
  - intros i _. vm_compute. reflexivity.
  - split; assumption.
Defined.

End LoopExtra.

(* ================================================================== *)
(** * The action registry and the memory *)
(* ================================================================== *)

Module GameFacts.
Import Py Game GameSpec TextSpec StrFacts.

Lemma str_eqb_refl (a : str) : str_eqb a a = true.
Proof. now apply str_eqb_eq. Qed.

Lemma get_set_item {A} (key k : str) (a : A) (d : list (str * A)) :
  get_item k (set_item key a d)
  = if str_eqb k key then Some a else get_item k d.
Proof.
  induction d as [|[k0 b] d IH]; cbn [set_item get_item].
  - destruct (str_eqb k key); reflexivity.
  - destruct (str_eqb key k0) eqn:E0; cbn [get_item].
    + apply str_eqb_eq in E0. subst k0.
      destruct (str_eqb k key); reflexivity.
    + destruct (str_eqb k k0) eqn:E1; [|assumption].
      apply str_eqb_eq in E1. subst k0.
      destruct (str_eqb k key) eqn:E2; [|reflexivity].
      apply str_eqb_eq in E2. subst k. now rewrite str_eqb_refl in E0.
Qed.

Lemma set_item_new {A} (key : str) (a : A) (d : list (str * A)) :
  get_item key d = None -> set_item key a d = d ++ [(key, a)].
Proof.
  induction d as [|[k0 b] d IH]; cbn [set_item get_item app]; [reflexivity|].
  destruct (str_eqb key k0); [discriminate|]. intros H. now rewrite IH.
Qed.

Lemma set_item_old {A} (key : str) (a b : A) (d : list (str * A)) :
  get_item key d = Some b -> map fst (set_item key a d) = map fst d.
Proof.
  induction d as [|[k0 b0] d IH]; cbn [set_item get_item]; [discriminate|].
  destruct (str_eqb key k0); [reflexivity|]. intros H. cbn [map]. now rewrite IH.
Qed.

Lemma get_item_in {A} (key : str) (d : list (str * A)) :
  get_item key d = None <-> ~ In key (map fst d).
Proof.
  induction d as [|[k0 b] d IH]; cbn [get_item map fst In]; [tauto|].
  destruct (str_eqb key k0) eqn:E.
  - apply str_eqb_eq in E. subst k0. split; [discriminate|tauto].
  - assert (k0 <> key) by (intros ->; now rewrite str_eqb_refl in E). tauto.
Qed.

(** X16. Looking up after registering: the name of the registered action
    gives that action, whatever was registered under the name before;
    every other name gives what it gave before. *)
Theorem registry_lookup (registry : ActionRegistry) (action : Action) (n : str) :
  get_action (register registry action) n
  = if str_eqb n (name action) then Some action else get_action registry n.
Proof. unfold get_action, register. cbn [actions]. apply get_set_item. Qed.

Lemma set_item_replace {A} (key : str) (a b : A) (d : list (str * A)) :
  get_item key d = Some b ->
  exists before after,
    d = before ++ (key, b) :: after /\
    ~ In key (map fst before) /\
    set_item key a d = before ++ (key, a) :: after.
Proof.
  induction d as [|[k0 b0] d IH]; cbn [set_item get_item]; [discriminate|].
  destruct (str_eqb key k0) eqn:E.
  - apply str_eqb_eq in E. subst k0. intros [= ->].
    exists [], d. cbn [app map In]. tauto.
  - intros H. destruct (IH H) as (before & after & Hd & Hn & Hs).
    exists ((k0, b0) :: before), after. cbn [app map fst In].
    rewrite Hs, <- Hd. repeat split. intros [->|Hin]; [|now apply Hn].
    now rewrite str_eqb_refl in E.
Qed.

(** X17. Listing after registering: an action with a new name goes to
    the end of the list; an action with a name that is already there
    takes the place of the action that was registered under the name,
    and everything before and after that place stays as it was. *)
Theorem registry_listing (registry : ActionRegistry) (action : Action) :
  match get_action registry (name action) with
  | None => get_actions (register registry action) = get_actions registry ++ [action]
  | Some old =>
      exists before after,
        actions registry = before ++ (name action, old) :: after /\
        ~ In (name action) (map fst before) /\
        actions (register registry action)
        = before ++ (name action, action) :: after /\
        get_actions registry = map snd before ++ old :: map snd after /\
        get_actions (register registry action)
        = map snd before ++ action :: map snd after
  end.
Proof.
  unfold get_action, get_actions, register. cbn [actions].
  destruct (get_item (name action) (actions registry)) as [old|] eqn:E.
  - destruct (set_item_replace (name action) action old (actions registry) E)
      as (before & after & Hd & Hn & Hs).
    exists before, after. rewrite Hs, Hd, !map_app. cbn [map snd].
    repeat split; try reflexivity. assumption.
  - rewrite (set_item_new _ _ _ E), map_app. reflexivity.
Qed.

Lemma set_item_forall {A} (P : str * A -> Prop) (key : str) (a : A) (d : list (str * A)) :
  P (key, a) -> Forall P d -> Forall P (set_item key a d).
Proof.
  intros Ha. induction 1 as [|[k0 b] d Hb Hd IH]; cbn [set_item].
  - now constructor.
  - destruct (str_eqb key k0) eqn:E.
    + apply str_eqb_eq in E. subst k0. now constructor.
    + now constructor.
Qed.

Lemma NoDup_snoc {A} (l : list A) (x : A) :
  NoDup l -> ~ In x l -> NoDup (l ++ [x]).
Proof.
  induction 1 as [|y l Hy Hl IH]; cbn [app In]; intros Hx.
  - constructor; [intros []|constructor].
  - constructor.
    + rewrite in_app_iff. cbn [In]. intros [H|[H|[]]]; [now apply Hy|].
      apply Hx. now left.
    + apply IH. tauto.
Qed.

Lemma register_well_keyed (registry : ActionRegistry) (action : Action) :
  well_keyed (actions registry) -> well_keyed (actions (register registry action)).
Proof.
  intros [Hn Hk]. unfold register. cbn [actions]. split.
  - destruct (get_item (name action) (actions registry)) as [b|] eqn:E.
    + now rewrite (set_item_old _ _ _ _ E).
    + rewrite (set_item_new _ _ _ E), map_app. cbn [map fst].
      apply NoDup_snoc; [assumption|]. now apply get_item_in.
  - now apply set_item_forall.
Qed.

Lemma registered_app (l : list Action) (a : Action) :
  registered (l ++ [a]) = register (registered l) a.
Proof. unfold registered. now rewrite fold_left_app. Qed.

Lemma registered_well_keyed (l : list Action) : well_keyed (actions (registered l)).
Proof.
  induction l as [|a l IH] using rev_ind.
  - split; constructor.
  - rewrite registered_app. now apply register_well_keyed.
Qed.

Lemma get_item_well_keyed (d : list (str * Action)) (a : Action) :
  well_keyed d -> (In a (map snd d) <-> get_item (name a) d = Some a).
Proof.
  intros [Hn Hk]. induction d as [|[k0 b] d IH]; cbn [map snd In get_item].
  - split; [intros []|discriminate].
  - cbn [map fst] in Hn. apply NoDup_cons_iff in Hn as [Hk0 Hn].
    apply Forall_cons_iff in Hk as [Hb Hk]. cbn [fst snd] in Hb. subst k0.
    specialize (IH Hn Hk).
    destruct (str_eqb (name a) (name b)) eqn:E.
    + apply str_eqb_eq in E. split.
      * intros [->|Hin]; [reflexivity|].
        apply IH in Hin. apply get_item_in in Hk0. congruence.
      * intros [= ->]. now left.
    + split.
      * intros [->|Hin]; [now rewrite str_eqb_refl in E|now apply IH].
      * intros H. right. now apply IH.
Qed.

(** X18. In a registry built by registering actions one after the other,
    the names of the listed actions are all different, and the listed
    actions are exactly those that a lookup under their own name
    returns. *)
Theorem registry_consistent (l : list Action) :
  let registry := registered l in
  NoDup (map name (get_actions registry)) /\
  (forall a, In a (get_actions registry) <-> get_action registry (name a) = Some a).
Proof.
  cbv zeta. pose proof (registered_well_keyed l) as W. split.
  - destruct W as [Hn Hk]. unfold get_actions. rewrite map_map.
    erewrite map_ext_in; [exact Hn|].
    intros entry Hin. symmetry. exact (proj1 (Forall_forall _ _) Hk entry Hin).
  - intros a. now apply get_item_well_keyed.
Qed.

(** X19. The last registration under a name is the one a lookup finds. *)
Theorem registry_last_wins (l : list Action) (n : str) :
  get_action (registered l) n
  = find (fun a => str_eqb n (name a)) (rev l).
Proof.
  induction l as [|a l IH] using rev_ind; [reflexivity|].
  rewrite registered_app, rev_unit. cbn [find].
  unfold get_action, register. cbn [actions]. rewrite get_set_item.
  destruct (str_eqb n (name a)); [reflexivity|exact IH].
Qed.

(** ** Memory *)

Lemma firstn_prefix {A} (n : nat) (l : list A) : prefix_of (firstn n l) l.
Proof. exists (skipn n l). symmetry. apply firstn_skipn. Qed.

(** X20. [get_memories] always returns a front part of the stored
    entries, oldest first: all of them without limit, the first [limit]
    of them (or all, if there are fewer) with a limit that is not
    negative, and all but the last [-limit] with a negative limit. *)
Theorem get_memories_front (m : Memory) (limit : option Z) :
  prefix_of (get_memories m limit) (items m) /\
  List.length (get_memories m limit)
  = match limit with
    | None => List.length (items m)
    | Some n =>
        if (0 <=? n)%Z
        then Nat.min (Z.to_nat n) (List.length (items m))
        else List.length (items m) - Z.to_nat (- n)
    end.
Proof.
  unfold get_memories, slice_to. destruct limit as [n|].
  - destruct (0 <=? n)%Z eqn:E; (split; [apply firstn_prefix|]);
      rewrite length_firstn; [reflexivity|].
    apply Z.leb_gt in E. lia.
  - split; [|reflexivity]. exists []. now rewrite app_nil_r.
Qed.

(** X21. With a limit that the stored entries already fill, adding an
    entry changes nothing to what [get_memories] returns: the limit keeps
    the oldest entries, not the newest. *)
Theorem get_memories_keeps_oldest (m : Memory) (memory : dict) (n : Z) :
  (0 <= n <= Z.of_nat (List.length (items m)))%Z ->
  get_memories (add_memory m memory) (Some n) = get_memories m (Some n).
Proof.
  intros H. unfold get_memories, add_memory, slice_to. cbn [items].
  destruct (Z.leb_spec 0 n) as [_|]; [|lia].
  rewrite firstn_app.
  replace (Z.to_nat n - List.length (items m)) with 0 by lia.
  cbn [firstn]. apply app_nil_r.
Qed.

Lemma remembered_items (l : list dict) : items (remembered l) = l.
Proof.
  induction l as [|x l IH] using rev_ind; [reflexivity|].
  unfold remembered in *. rewrite fold_left_app. cbn [fold_left add_memory items].
  now rewrite IH.
Qed.

(** X22. Entries come back in the order they were added: after adding
    the entries of a list to a new memory, [get_memories()] returns that
    list. *)
Theorem get_memories_all (l : list dict) :
  get_memories (remembered l) None = l.
Proof. unfold get_memories, slice_to. apply remembered_items. Qed.

Lemma get_memories_keeps_oldest_witness :
  get_memories
    (add_memory (remembered [[(u "a", VInt 1)]; [(u "b", VInt 2)]])
       [(u "c", VInt 3)])
    (Some 2%Z)
  = [[(u "a", VInt 1)]; [(u "b", VInt 2)]].
Proof.
  rewrite get_memories_keeps_oldest.
  - reflexivity.
  - vm_compute. split; discriminate.
Defined.

End GameFacts.

(* ================================================================== *)
(** * The chat session *)
(* ================================================================== *)

Module ChatFacts.
Import Py App ChatSpec TextSpec.

Section Chat.

Variable replies : nat -> str.

Local Abbreviation ask := (ask replies).
Local Abbreviation ask_all := (ask_all replies).
Local Abbreviation exchange := (exchange replies).

(** The exchanges that a list of user messages adds, the first one
    answered by the call number [first]. *)
Local Abbreviation exchanges first user_messages :=
  (flat_map exchange (combine (seq first (List.length user_messages)) user_messages)).

Lemma length_exchanges (first : nat) (user_messages : list str) :
  List.length (exchanges first user_messages) = 2 * List.length user_messages.
Proof.
  revert first. induction user_messages as [|x l IH]; intros first; [reflexivity|].
  cbn [List.length seq combine flat_map app ChatSpec.exchange]. rewrite IH. lia.
Qed.

(** A conversation from any session and any state of the client. *)
Lemma ask_all_from (user_messages : list str) :
  forall (session : ChatSession) (c : client),
    ask_all session user_messages c
    = (map replies (seq (calls c) (List.length user_messages)),
       {| messages := messages session ++ exchanges (calls c) user_messages |},
       Client (calls c + List.length user_messages)
         (received c ++
          map (fun k => firstn (List.length (messages session) + 2 * k + 1)
                          (messages session ++ exchanges (calls c) user_messages))
            (seq 0 (List.length user_messages)))).
Proof.
  induction user_messages as [|x l IH]; intros session c.
  - cbn. rewrite !app_nil_r, Nat.add_0_r. now destruct session, c.
  - cbn [ChatSpec.ask_all App.ask generate_response]. rewrite IH.
    cbn [calls received messages List.length seq map combine flat_map].
    f_equal; [f_equal|].
    + f_equal. rewrite <- !app_assoc. reflexivity.
    + f_equal; [lia|]. rewrite <- app_assoc. f_equal. cbn [app]. f_equal.
      * rewrite Nat.add_0_r, firstn_app, firstn_all2 by lia.
        replace (_ + 1 - _) with 1 by lia. reflexivity.
      * rewrite <- (seq_shift _ 0), map_map. apply map_ext. intros k.
        rewrite !length_app. cbn [List.length ChatSpec.exchange app].
        rewrite <- !app_assoc. cbn [app]. f_equal. lia.
Qed.

(** X23. After a conversation in a new session, the session holds the
    system prompt followed, for each user message in order, by that
    message with role [user] and the model's answer to it with role
    [assistant]: [1 + 2 * n] messages after [n] user messages.  [ask]
    returns these answers, in order. *)
Theorem chat_transcript (system_prompt : str) (user_messages : list str) (c : client) :
  let '(responses, session, _) :=
    ask_all (new_session system_prompt) user_messages c in
  messages session = transcript replies system_prompt (calls c) user_messages /\
  List.length (messages session) = 1 + 2 * List.length user_messages /\
  responses = map replies (seq (calls c) (List.length user_messages)).
Proof.
  rewrite ask_all_from. cbn [messages new_session app]. repeat split.
  cbn [List.length]. now rewrite length_exchanges.
Qed.

(** X24. Every call of the model in a conversation receives the whole
    session so far, ending with the user's new message: the call for the
    user message number [k] (from 0) gets the first [2 * k + 2] messages
    of the final transcript. *)
Theorem chat_prompts (system_prompt : str) (user_messages : list str) (c : client) :
  let '(_, session, c') :=
    ask_all (new_session system_prompt) user_messages c in
  calls c' = calls c + List.length user_messages /\
  received c'
  = received c ++
    map (fun k => firstn (2 * k + 2) (messages session))
      (seq 0 (List.length user_messages)).
Proof.
  rewrite ask_all_from. cbn [messages new_session app calls received List.length].
  split; [reflexivity|]. f_equal. apply map_ext. intros k.
  f_equal. lia.
Qed.

Lemma roles_exchanges (first : nat) (user_messages : list str) :
  map AgentPE.role (exchanges first user_messages)
  = flat_map (fun _ => [u "user"; u "assistant"]) user_messages.
Proof.
  revert first. induction user_messages as [|x l IH]; intros first; [reflexivity|].
  cbn [List.length seq combine flat_map app ChatSpec.exchange map AgentPE.role fst snd].
  now rewrite IH.
Qed.

(** X25. The roles in a session alternate: the system prompt first, then
    [user] and [assistant] in turn, the last message being an answer. *)
Theorem chat_roles (system_prompt : str) (user_messages : list str) (c : client) :
  let '(_, session, _) :=
    ask_all (new_session system_prompt) user_messages c in
  map AgentPE.role (messages session)
  = u "system" :: flat_map (fun _ => [u "user"; u "assistant"]) user_messages.
Proof.
  rewrite ask_all_from. cbn [messages new_session app map AgentPE.role].
  now rewrite roles_exchanges.
Qed.

End Chat.
End ChatFacts.
